(** * tag-game: the session coordinator of [main.go] over a model of its store

    [main.go] is an AWS Lambda that keeps game sessions and their players in
    two DynamoDB tables.  The functions of the coordinator
    ([CreateGameAndPlayer], [JoinGame], [CreatePlayer], [IsGameOwner],
    [DeleteGame], [RemovePlayer], [StartGame], [EndGame], [SetGameState],
    [PlayerList], [LeaveGame], [GameState]) and the two handlers that map
    errors to status codes by kind ([handleCreateGame], [handleJoinGame]) are
    embedded as state-passing functions over a [World]: the contents of the
    two tables, the outcome the store will give to each coming call, and the
    lines written to the log and to standard output. *)

From stdpp Require Import gmap strings list fin_maps.

Open Scope string_scope.

(** ** Errors *)

(** [awserr.Error]: what the program inspects is [Code()]; [Error()] prints
    the code and the message. *)
Record awserr := { Code : string; Message : string }.

Definition ErrCodeConditionalCheckFailedException : string :=
  "ConditionalCheckFailedException".
Definition ErrCodeTransactionCanceledException : string :=
  "TransactionCanceledException".

(** A Go [error]: an error of the SDK, or one built by [fmt.Errorf], without
    or with a wrapped error ([%w]).  [wrapError prefix err] is
    [fmt.Errorf(prefix + "%w", err)]. *)
Inductive error :=
  | AwsError (e : awserr)
  | errorString (s : string)
  | wrapError (prefix : string) (err : error).

Fixpoint Error (e : error) : string :=
  match e with
  | AwsError a => Code a ++ ": " ++ Message a
  | errorString s => s
  | wrapError prefix err => prefix ++ Error err
  end.

(** [errors.As(err, &awsErr)] with [awsErr] an [awserr.Error]: the first error
    of the chain that is one. *)
Fixpoint errors_As_awserr (e : error) : option awserr :=
  match e with
  | AwsError a => Some a
  | errorString _ => None
  | wrapError _ err => errors_As_awserr err
  end.

(** [errors.As(err, &awsErr)] with [awsErr] a
    [*dynamodb.TransactionCanceledException]: the SDK gives a service error
    that type exactly when its code is that of the exception. *)
Fixpoint errors_As_TransactionCanceledException (e : error) : bool :=
  match e with
  | AwsError a => String.eqb (Code a) ErrCodeTransactionCanceledException
  | errorString _ => false
  | wrapError _ err => errors_As_TransactionCanceledException err
  end.

(** A Go result [(T, error)]. A plain [error] result is [option error], with
    [None] for [nil]. *)
Inductive result (A : Type) :=
  | Ok (a : A)
  | Err (e : error).
Arguments Ok {A} a.
Arguments Err {A} e.

(** ** Items and records *)

(** [dynamodb.AttributeValue], for the attribute types the tables of this
    program hold. *)
Inductive AttributeValue :=
  | AvS (s : string)
  | AvBOOL (b : bool)
  | AvNULL.

#[global] Instance AttributeValue_eq_dec : EqDecision AttributeValue.
Proof. solve_decision. Defined.

(** [map[string]*dynamodb.AttributeValue] *)
Abbreviation Item := (gmap string AttributeValue).

Record Game := {
  GameId : string;
  GameName : string;
  HasGameStarted : bool;
  OwnerId : string
}.

Record Player := {
  PlayerId : string;
  PlayerName : string;
  PlayerGameId : string   (* field [GameId] of [Player] *)
}.

Record GameRequest := {
  reqGameId : string;
  reqPlayerId : string
}.

Record CreateGameRequest := {
  cGameName : string;
  cPlayerName : string;
  cGameRequest : GameRequest
}.

Record JoinGameRequest := {
  jGameRequest : GameRequest;
  jPlayerName : string
}.

Record RemovePlayerRequest := {
  rGameRequest : GameRequest;
  PlayerIdToRemove : string
}.

(** [dynamodbattribute.MarshalMap] on the two record types, by their
    [dynamodbav] tags.  It cannot fail on records of strings and booleans, so
    the two [failed to marshal] returns of the source are unreachable.  (The
    SDK writes an empty string as NULL, which [UnmarshalMap] reads back as the
    empty string; the program cannot tell the two apart and the model keeps
    the S attribute.) *)
Definition MarshalGame (g : Game) : Item :=
  <["gameId" := AvS (GameId g)]>
  (<["gameName" := AvS (GameName g)]>
  (<["hasGameStarted" := AvBOOL (HasGameStarted g)]>
  (<["ownerId" := AvS (OwnerId g)]> ∅))).

Definition MarshalPlayer (p : Player) : Item :=
  <["playerId" := AvS (PlayerId p)]>
  (<["playerName" := AvS (PlayerName p)]>
  (<["gameId" := AvS (PlayerGameId p)]> ∅)).

Definition UnmarshalTypeError (value type : string) : awserr :=
  {| Code := "UnmarshalTypeError";
     Message := "cannot unmarshal " ++ value ++ " into Go value of type " ++ type |}.

(** Decoding one attribute into a field that holds the zero value: a missing
    attribute and NULL leave the zero value, an attribute of the other type is
    an [UnmarshalTypeError]. *)
Definition decodeString (av : option AttributeValue) : awserr + string :=
  match av with
  | None => inr EmptyString
  | Some (AvS s) => inr s
  | Some AvNULL => inr EmptyString
  | Some (AvBOOL _) => inl (UnmarshalTypeError "bool" "string")
  end.

Definition decodeBool (av : option AttributeValue) : awserr + bool :=
  match av with
  | None => inr false
  | Some (AvBOOL b) => inr b
  | Some AvNULL => inr false
  | Some (AvS _) => inl (UnmarshalTypeError "string" "bool")
  end.

(** [dynamodbattribute.UnmarshalMap(item, &game)] into a zero [Game].  (Go
    visits the attributes in map order; with several ill-typed attributes the
    model reports the first in field order.) *)
Definition UnmarshalGame (item : Item) : awserr + Game :=
  match decodeString (item !! "gameId") with
  | inl e => inl e
  | inr gid =>
    match decodeString (item !! "gameName") with
    | inl e => inl e
    | inr name =>
      match decodeBool (item !! "hasGameStarted") with
      | inl e => inl e
      | inr started =>
        match decodeString (item !! "ownerId") with
        | inl e => inl e
        | inr owner =>
          inr {| GameId := gid; GameName := name;
                 HasGameStarted := started; OwnerId := owner |}
        end
      end
    end
  end.

Definition UnmarshalPlayer (item : Item) : awserr + Player :=
  match decodeString (item !! "playerId") with
  | inl e => inl e
  | inr pid =>
    match decodeString (item !! "playerName") with
    | inl e => inl e
    | inr name =>
      match decodeString (item !! "gameId") with
      | inl e => inl e
      | inr gid =>
        inr {| PlayerId := pid; PlayerName := name; PlayerGameId := gid |}
      end
    end
  end.

(** ** The store *)

(** DynamoDB as the program uses it: two tables of items under a string key,
    the second with an index on [gameId].  A call is either failed by the
    store as a whole, which changes nothing, or carried out; a write carried
    out is refused only when its condition does not hold or its item has no
    key.  Calls are made one after the other: the model has one client. *)

(** The two tables named by [GAMES_TABLE_NAME] and [PLAYERS_TABLE_NAME]. *)
Inductive TableName := gamesTableName | playersTableName.

(** The partition key of each table. *)
Definition KeySchema (t : TableName) : string :=
  match t with
  | gamesTableName => "gameId"
  | playersTableName => "playerId"
  end.

(** [faults] is the outcome the store gives to the coming calls, in order:
    [Some e] when it fails the call with [e] (transport failure, throttling,
    a request it refuses) and leaves the tables as they are, [None] when it
    carries the call out; when the list is used up every further call is
    carried out. *)
Record World := {
  games : gmap string Item;
  players : gmap string Item;
  faults : list (option awserr);
  log : list string;       (* [log.Printf] *)
  stdout : list string     (* [fmt.Printf] *)
}.

Definition table (t : TableName) (w : World) : gmap string Item :=
  match t with
  | gamesTableName => games w
  | playersTableName => players w
  end.

Definition set_table (t : TableName) (m : gmap string Item) (w : World) : World :=
  match t with
  | gamesTableName =>
      {| games := m; players := players w; faults := faults w;
         log := log w; stdout := stdout w |}
  | playersTableName =>
      {| games := games w; players := m; faults := faults w;
         log := log w; stdout := stdout w |}
  end.

(** State passing: a computation takes the world and returns its result and
    the world it leaves. *)
Definition M (A : Type) : Type := World → A * World.

Definition ret {A} (a : A) : M A := λ w, (a, w).
Definition bind {A B} (m : M A) (k : A → M B) : M B :=
  λ w, let '(a, w1) := m w in k a w1.

Notation "'do' x <- m ; k" := (bind m (λ x, k))
  (at level 10, x name, m at level 100, k at level 200).
Notation "m ;; k" := (bind m (λ _, k))
  (at level 100, k at level 200, right associativity).

(** The outcome of the next store call. *)
Definition next_outcome : M (option awserr) := λ w,
  match faults w with
  | [] => (None, w)
  | f :: fs =>
      (f, {| games := games w; players := players w; faults := fs;
             log := log w; stdout := stdout w |})
  end.

Definition log_Printf (line : string) : M unit := λ w,
  (tt, {| games := games w; players := players w; faults := faults w;
          log := log w ++ [line]; stdout := stdout w |}).

Definition fmt_Printf (text : string) : M unit := λ w,
  (tt, {| games := games w; players := players w; faults := faults w;
          log := log w; stdout := stdout w ++ [text] |}).

Definition ValidationException : awserr :=
  {| Code := "ValidationException";
     Message := "The provided key element does not match the schema" |}.

Definition ConditionalCheckFailedException : awserr :=
  {| Code := ErrCodeConditionalCheckFailedException;
     Message := "The conditional request failed" |}.

Definition TransactionCanceledException : awserr :=
  {| Code := ErrCodeTransactionCanceledException;
     Message := "Transaction cancelled, please refer cancellation reasons for specific reasons [ConditionalCheckFailed]" |}.

(** The condition expressions of the program. *)
Inductive ConditionExpression :=
  | attribute_not_exists (attr : string).

(** A condition is evaluated on the item stored under the key of the write,
    if there is one. *)
Definition condition_holds (c : ConditionExpression) (stored : option Item) : bool :=
  match c, stored with
  | attribute_not_exists _, None => true
  | attribute_not_exists attr, Some it => bool_decide (it !! attr = None)
  end.

(** The key an item is stored under: its key attribute, which must be an S. *)
Definition key_of (t : TableName) (item : Item) : option string :=
  match item !! KeySchema t with
  | Some (AvS k) => Some k
  | _ => None
  end.

(** [dynamodb.Put] of a transaction, and [PutItemInput]. *)
Record Put := {
  PutTableName : TableName;
  PutItem_ : Item;
  PutCondition : ConditionExpression
}.

Definition put_valid (p : Put) : bool :=
  match key_of (PutTableName p) (PutItem_ p) with
  | Some _ => true
  | None => false
  end.

Definition put_allowed (w : World) (p : Put) : bool :=
  match key_of (PutTableName p) (PutItem_ p) with
  | Some k => condition_holds (PutCondition p) (table (PutTableName p) w !! k)
  | None => false
  end.

Definition put_apply (w : World) (p : Put) : World :=
  match key_of (PutTableName p) (PutItem_ p) with
  | Some k =>
      set_table (PutTableName p) (<[k := PutItem_ p]> (table (PutTableName p) w)) w
  | None => w
  end.

(** [svc.PutItem]: a conditional write of one item. *)
Definition PutItem (p : Put) : M (option awserr) :=
  do f <- next_outcome;
  match f with
  | Some e => ret (Some e)
  | None => λ w,
      if negb (put_valid p) then (Some ValidationException, w)
      else if put_allowed w p then (None, put_apply w p)
      else (Some ConditionalCheckFailedException, w)
  end.

(** [svc.TransactWriteItems] on conditional puts: every condition is
    evaluated on the tables as they are, and the puts are applied together
    or not at all. *)
Definition TransactWriteItems (ps : list Put) : M (option awserr) :=
  do f <- next_outcome;
  match f with
  | Some e => ret (Some e)
  | None => λ w,
      if negb (forallb put_valid ps) then (Some ValidationException, w)
      else if forallb (put_allowed w) ps then (None, foldl put_apply w ps)
      else (Some TransactionCanceledException, w)
  end.

(** A [Key] of [GetItem], [DeleteItem] and [UpdateItem]: the name of the key
    attribute and its S value. *)
Definition Key : Type := string * string.

Definition key_valid (t : TableName) (k : Key) : bool :=
  String.eqb (fst k) (KeySchema t).

(** [svc.GetItem]: the item under the key, or no item. *)
Definition GetItem (t : TableName) (k : Key) : M (awserr + option Item) :=
  do f <- next_outcome;
  match f with
  | Some e => ret (inl e)
  | None => λ w,
      if negb (key_valid t k) then (inl ValidationException, w)
      else (inr (table t w !! snd k), w)
  end.

(** [svc.DeleteItem] without a condition: deleting an absent key succeeds. *)
Definition DeleteItem (t : TableName) (k : Key) : M (option awserr) :=
  do f <- next_outcome;
  match f with
  | Some e => ret (Some e)
  | None => λ w,
      if negb (key_valid t k) then (Some ValidationException, w)
      else (None, set_table t (delete (snd k) (table t w)) w)
  end.

(** [svc.UpdateItem] with the update expression [SET attr = :v] and no
    condition: the attribute is set on the stored item; when there is no item
    under the key, one is created with the key and the attribute. *)
Definition UpdateItem_SET (t : TableName) (k : Key) (attr : string)
    (v : AttributeValue) : M (option awserr) :=
  do f <- next_outcome;
  match f with
  | Some e => ret (Some e)
  | None => λ w,
      if negb (key_valid t k) then (Some ValidationException, w)
      else
        let stored := default {[ fst k := AvS (snd k) ]} (table t w !! snd k) in
        (None, set_table t (<[snd k := <[attr := v]> stored]> (table t w)) w)
  end.

(** The global secondary index of the players table. *)
Definition gameIdIndex : string := "gameIdIndex".

(** [svc.Query] on an index with the key condition [attr = :v]: the items
    whose attribute [attr] is the S value [v].  The index [gameIdIndex] of the
    players table has the key [gameId]. *)
Definition Query (t : TableName) (index : string) (cond : Key)
    : M (awserr + list Item) :=
  do f <- next_outcome;
  match f with
  | Some e => ret (inl e)
  | None => λ w,
      match t with
      | playersTableName =>
          if String.eqb index gameIdIndex && String.eqb (fst cond) "gameId" then
            (inr (filter (λ it : Item, it !! fst cond = Some (AvS (snd cond)))
                         (snd <$> map_to_list (table t w))), w)
          else (inl ValidationException, w)
      | gamesTableName => (inl ValidationException, w)
      end
  end.

(** ** The coordinator ([main.go]) *)

(** The line feed and the double quote of the format strings. *)
Definition nl : string := String (Ascii.ascii_of_nat 10) EmptyString.
Definition dq : string := String (Ascii.ascii_of_nat 34) EmptyString.

Definition CreateGameAndPlayer (gameRequest : CreateGameRequest) : M (option error) :=
  let gameItem :=
    {| GameId := reqGameId (cGameRequest gameRequest);
       GameName := cGameName gameRequest;
       HasGameStarted := false;
       OwnerId := reqPlayerId (cGameRequest gameRequest) |} in
  let playerItem :=
    {| PlayerId := reqPlayerId (cGameRequest gameRequest);
       PlayerName := cPlayerName gameRequest;
       PlayerGameId := reqGameId (cGameRequest gameRequest) |} in
  let gameAV := MarshalGame gameItem in
  let playerAV := MarshalPlayer playerItem in
  let input :=
    [ {| PutTableName := gamesTableName; PutItem_ := gameAV;
         PutCondition := attribute_not_exists "gameId" |};
      {| PutTableName := playersTableName; PutItem_ := playerAV;
         PutCondition := attribute_not_exists "playerId" |} ] in
  do err <- TransactWriteItems input;
  match err with
  | Some err => ret (Some (wrapError "transaction failed: " (AwsError err)))
  | None =>
      fmt_Printf ("Successfully created game and player." ++ nl) ;;
      ret None
  end.

Definition CreatePlayer (gameRequest : JoinGameRequest) : M (option error) :=
  let itemToWrite :=
    {| PlayerId := reqPlayerId (jGameRequest gameRequest);
       PlayerName := jPlayerName gameRequest;
       PlayerGameId := reqGameId (jGameRequest gameRequest) |} in
  let av := MarshalPlayer itemToWrite in
  let putInput :=
    {| PutTableName := playersTableName; PutItem_ := av;
       PutCondition := attribute_not_exists "playerId" |} in
  do err <- PutItem putInput;
  match err with
  | Some err =>
      ret (Some (wrapError "failed to put item into DynamoDB: " (AwsError err)))
  | None =>
      fmt_Printf ("Successfully wrote player with ID: "
                  ++ reqPlayerId (jGameRequest gameRequest) ++ nl) ;;
      ret None
  end.

Definition JoinGame (gameRequest : JoinGameRequest) : M (option error) :=
  do result <- GetItem gamesTableName ("gameId", reqGameId (jGameRequest gameRequest));
  match result with
  | inl err => ret (Some (wrapError "failed to query DynamoDB: " (AwsError err)))
  | inr None =>
      ret (Some (errorString
                   ("game " ++ reqGameId (jGameRequest gameRequest) ++ " not found")))
  | inr (Some _) => ret None
  end.

Definition IsGameOwner (gameId playerId : string) : M (result bool) :=
  do result <- GetItem gamesTableName ("gameId", gameId);
  match result with
  | inl err => ret (Err (wrapError "failed to get game: " (AwsError err)))
  | inr None =>
      ret (Err (errorString ("game with ID " ++ gameId ++ " not found")))
  | inr (Some item) =>
      match UnmarshalGame item with
      | inl err => ret (Err (wrapError "failed to unmarshal game: " (AwsError err)))
      | inr game => ret (Ok (String.eqb (OwnerId game) playerId))
      end
  end.

(** The loop of [DeleteGame] over the items of the query. *)
Fixpoint deletePlayers (items : list Item) : M unit :=
  match items with
  | [] => ret tt
  | item :: rest =>
      match UnmarshalPlayer item with
      | inl err =>
          log_Printf ("Failed to unmarshal player: " ++ Error (AwsError err)) ;;
          deletePlayers rest
      | inr player =>
          do err <- DeleteItem playersTableName ("playerId", PlayerId player);
          match err with
          | Some err =>
              log_Printf ("Failed to delete player " ++ PlayerId player ++ ": "
                          ++ Error (AwsError err))
          | None => log_Printf ("Deleted player: " ++ PlayerId player)
          end ;;
          deletePlayers rest
      end
  end.

Definition DeleteGame (gameRequest : GameRequest) : M (option error) :=
  do isOwner <- IsGameOwner (reqGameId gameRequest) (reqPlayerId gameRequest);
  match isOwner with
  | Err err => ret (Some err)
  | Ok false =>
      ret (Some (errorString "unauthorized: only the game owner can delete this game"))
  | Ok true =>
      do err <- DeleteItem gamesTableName ("gameId", reqGameId gameRequest);
      match err with
      | Some err => ret (Some (wrapError "failed to delete game: " (AwsError err)))
      | None =>
          log_Printf ("Deleted game: " ++ reqGameId gameRequest) ;;
          do queryResult <- Query playersTableName "gameIdIndex"
                                  ("gameId", reqGameId gameRequest);
          match queryResult with
          | inl err =>
              ret (Some (wrapError "failed to query players by gameId: " (AwsError err)))
          | inr items =>
              deletePlayers items ;;
              ret None
          end
      end
  end.

Definition RemovePlayer (removePlayerRequest : RemovePlayerRequest) : M (option error) :=
  do isOwner <- IsGameOwner (reqGameId (rGameRequest removePlayerRequest))
                            (reqPlayerId (rGameRequest removePlayerRequest));
  match isOwner with
  | Err err => ret (Some err)
  | Ok false =>
      ret (Some (errorString "unauthorized: only the game owner can remove a player"))
  | Ok true =>
      do err <- DeleteItem playersTableName
                           ("playerId", PlayerIdToRemove removePlayerRequest);
      match err with
      | Some err => ret (Some (wrapError "failed to remove player: " (AwsError err)))
      | None =>
          log_Printf ("Removed player: " ++ reqGameId (rGameRequest removePlayerRequest)) ;;
          ret None
      end
  end.

Definition SetGameState (state : bool) (gameId : string) : M (option error) :=
  do err <- UpdateItem_SET gamesTableName ("gameId", gameId)
                           "hasGameStarted" (AvBOOL state);
  match err with
  | Some err => ret (Some (wrapError "failed to update game state: " (AwsError err)))
  | None => ret None
  end.

Definition StartGame (gameRequest : GameRequest) : M (option error) :=
  do isOwner <- IsGameOwner (reqGameId gameRequest) (reqPlayerId gameRequest);
  match isOwner with
  | Err err => ret (Some err)
  | Ok false =>
      ret (Some (errorString "unauthorized: only the game owner can start this game"))
  | Ok true =>
      do err <- SetGameState true (reqGameId gameRequest);
      match err with
      | Some err => ret (Some err)
      | None => ret None
      end
  end.

Definition EndGame (gameRequest : GameRequest) : M (option error) :=
  do isOwner <- IsGameOwner (reqGameId gameRequest) (reqPlayerId gameRequest);
  match isOwner with
  | Err err => ret (Some err)
  | Ok false =>
      ret (Some (errorString "unauthorized: only the game owner can end this game"))
  | Ok true =>
      do err <- SetGameState false (reqGameId gameRequest);
      match err with
      | Some err => ret (Some err)
      | None => ret None
      end
  end.

(** The loop of [PlayerList]: items that do not decode are logged and left
    out. *)
Fixpoint collectPlayers (items : list Item) (playerList : list Player)
    : M (list Player) :=
  match items with
  | [] => ret playerList
  | item :: rest =>
      match UnmarshalPlayer item with
      | inl err =>
          log_Printf ("Failed to unmarshal player: " ++ Error (AwsError err)) ;;
          collectPlayers rest playerList
      | inr player => collectPlayers rest (playerList ++ [player])
      end
  end.

Definition PlayerList (gameRequest : GameRequest) : M (result (list Player)) :=
  do isOwner <- IsGameOwner (reqGameId gameRequest) (reqPlayerId gameRequest);
  match isOwner with
  | Err err => ret (Err err)
  | Ok false =>
      ret (Err (errorString "unauthorized: only the game owner can end this game"))
  | Ok true =>
      do queryResult <- Query playersTableName "gameIdIndex"
                              ("gameId", reqGameId gameRequest);
      match queryResult with
      | inl err =>
          ret (Err (wrapError "failed to query players by gameId: " (AwsError err)))
      | inr items =>
          do playerList <- collectPlayers items [];
          ret (Ok playerList)
      end
  end.

Definition LeaveGame (gameRequest : GameRequest) : M (option error) :=
  do err <- DeleteItem playersTableName ("playerId", reqPlayerId gameRequest);
  match err with
  | Some err => ret (Some (wrapError "failed to remove player: " (AwsError err)))
  | None =>
      log_Printf ("Removed Player: " ++ reqPlayerId gameRequest) ;;
      ret None
  end.

Definition GameState (gameRequest : GameRequest) : M (result bool) :=
  do result <- GetItem gamesTableName ("gameId", reqGameId gameRequest);
  match result with
  | inl err => ret (Err (wrapError "failed to get game: " (AwsError err)))
  | inr None =>
      ret (Err (errorString ("game with ID " ++ reqGameId gameRequest ++ " not found")))
  | inr (Some item) =>
      match UnmarshalGame item with
      | inl err => ret (Err (wrapError "failed to unmarshal game: " (AwsError err)))
      | inr game => ret (Ok (HasGameStarted game))
      end
  end.

(** ** The handlers that tell the kinds of error apart *)

Record APIGatewayProxyResponse := {
  StatusCode : Z;
  Body : string;
  Headers : list (string * string)
}.

Definition jsonHeaders : list (string * string) :=
  [("Content-Type", "application/json")].

(** [handleCreateGame], from the outcome of [json.Unmarshal] on the body of
    the request: [None] when the body is not a request. *)
Definition handleCreateGame (decoded : option CreateGameRequest)
    : M APIGatewayProxyResponse :=
  match decoded with
  | None => ret {| StatusCode := 400; Body := "Invalid game request"; Headers := [] |}
  | Some body =>
      do err <- CreateGameAndPlayer body;
      match err with
      | Some err =>
          if errors_As_TransactionCanceledException err then
            ret {| StatusCode := 409;
                   Body := "Game already exists or player already joined";
                   Headers := [] |}
          else
            ret {| StatusCode := 500;
                   Body := "Create failed: " ++ Error err;
                   Headers := [] |}
      | None =>
          ret {| StatusCode := 200;
                 Body := "{" ++ dq ++ "message" ++ dq ++ ": " ++ dq
                         ++ cGameName body ++ " has been made by "
                         ++ cPlayerName body ++ dq ++ "}";
                 Headers := jsonHeaders |}
      end
  end.

Definition handleJoinGame (decoded : option JoinGameRequest)
    : M APIGatewayProxyResponse :=
  match decoded with
  | None =>
      ret {| StatusCode := 400; Body := "Invalid JSON in request body"; Headers := [] |}
  | Some body =>
      do err <- JoinGame body;
      match err with
      | Some err =>
          ret {| StatusCode := 404;
                 Body := "Game not found: " ++ Error err;
                 Headers := [] |}
      | None =>
          do err <- CreatePlayer body;
          match err with
          | Some err =>
              match errors_As_awserr err with
              | Some awsErr =>
                  if String.eqb (Code awsErr) ErrCodeConditionalCheckFailedException then
                    ret {| StatusCode := 409;
                           Body := "Player already exists in this game";
                           Headers := [] |}
                  else
                    ret {| StatusCode := 500;
                           Body := "Failed to create player: " ++ Error err;
                           Headers := [] |}
              | None =>
                  ret {| StatusCode := 500;
                         Body := "Failed to create player: " ++ Error err;
                         Headers := [] |}
              end
          | None =>
              ret {| StatusCode := 200;
                     Body := "{" ++ dq ++ "message" ++ dq ++ ": " ++ dq
                             ++ "Player " ++ jPlayerName body
                             ++ " joined game " ++ reqGameId (jGameRequest body)
                             ++ dq ++ "}";
                     Headers := jsonHeaders |}
          end
      end
  end.

(** ** The other handlers and the router *)

(** [encoding/json], as far as the handlers use it: decoding the body of a
    request into each of the request types ([None] when [json.Unmarshal]
    returns an error), and the JSON text of a string value. *)
Record encoding_json := {
  Unmarshal_CreateGameRequest : string → option CreateGameRequest;
  Unmarshal_JoinGameRequest : string → option JoinGameRequest;
  Unmarshal_GameRequest : string → option GameRequest;
  Unmarshal_RemovePlayerRequest : string → option RemovePlayerRequest;
  Marshal_string : string → string
}.

(** [json.Marshal(map[string]bool{key: b})], for a key without characters to
    escape.  It cannot fail, so the 500 answers of [handleGameState] and
    [handleIsOwner] are unreachable. *)
Definition Marshal_bool_map (key : string) (b : bool) : string :=
  "{" ++ dq ++ key ++ dq ++ ":" ++ (if b then "true" else "false") ++ "}".

(** [json.Marshal] of a [Player], by its [json] tags, and of a [[]Player]:
    the nil slice, which [PlayerList] returns when it appended nothing, is
    [null]. *)
Definition Marshal_Player (J : encoding_json) (p : Player) : string :=
  "{" ++ dq ++ "playerId" ++ dq ++ ":" ++ Marshal_string J (PlayerId p)
  ++ "," ++ dq ++ "playerName" ++ dq ++ ":" ++ Marshal_string J (PlayerName p)
  ++ "," ++ dq ++ "gameId" ++ dq ++ ":" ++ Marshal_string J (PlayerGameId p)
  ++ "}".

Definition Marshal_players (J : encoding_json) (playerList : list Player) : string :=
  match playerList with
  | [] => "null"
  | _ => "[" ++ String.concat "," (map (Marshal_Player J) playerList) ++ "]"
  end.

Definition handleDeleteGame (decoded : option GameRequest)
    : M APIGatewayProxyResponse :=
  match decoded with
  | None =>
      ret {| StatusCode := 400; Body := "Invalid delete game request"; Headers := [] |}
  | Some body =>
      do err <- DeleteGame body;
      match err with
      | Some err =>
          ret {| StatusCode := 400; Body := "Delete failed: " ++ Error err;
                 Headers := [] |}
      | None =>
          ret {| StatusCode := 200;
                 Body := "Game " ++ reqGameId body
                         ++ " and associated players deleted successfully";
                 Headers := jsonHeaders |}
      end
  end.

Definition handleRemovePlayer (decoded : option RemovePlayerRequest)
    : M APIGatewayProxyResponse :=
  match decoded with
  | None =>
      ret {| StatusCode := 400; Body := "Invalid player remove request"; Headers := [] |}
  | Some body =>
      do err <- RemovePlayer body;
      match err with
      | Some err =>
          ret {| StatusCode := 400; Body := "Remove failed: " ++ Error err;
                 Headers := [] |}
      | None =>
          ret {| StatusCode := 200;
                 Body := "Player reomved " ++ PlayerIdToRemove body
                         ++ " and associated players deleted successfully";
                 Headers := jsonHeaders |}
      end
  end.

Definition handleStartGame (decoded : option GameRequest)
    : M APIGatewayProxyResponse :=
  match decoded with
  | None =>
      ret {| StatusCode := 400; Body := "Invalid start game request"; Headers := [] |}
  | Some body =>
      do err <- StartGame body;
      match err with
      | Some err =>
          ret {| StatusCode := 400; Body := "Start Game failed: " ++ Error err;
                 Headers := [] |}
      | None =>
          ret {| StatusCode := 200; Body := "Game started: " ++ reqGameId body;
                 Headers := jsonHeaders |}
      end
  end.

Definition handleEndGame (decoded : option GameRequest)
    : M APIGatewayProxyResponse :=
  match decoded with
  | None =>
      ret {| StatusCode := 400; Body := "Invalid end game request"; Headers := [] |}
  | Some body =>
      do err <- EndGame body;
      match err with
      | Some err =>
          ret {| StatusCode := 400; Body := "End Game failed: " ++ Error err;
                 Headers := [] |}
      | None =>
          ret {| StatusCode := 200; Body := "Game ended: " ++ reqGameId body;
                 Headers := jsonHeaders |}
      end
  end.

Definition handlePlayerList (J : encoding_json) (decoded : option GameRequest)
    : M APIGatewayProxyResponse :=
  match decoded with
  | None =>
      ret {| StatusCode := 400; Body := "Invalid player list request"; Headers := [] |}
  | Some body =>
      do result <- PlayerList body;
      match result with
      | Err err =>
          ret {| StatusCode := 400; Body := "Player List failed: " ++ Error err;
                 Headers := [] |}
      | Ok playerList =>
          ret {| StatusCode := 200; Body := Marshal_players J playerList;
                 Headers := jsonHeaders |}
      end
  end.

Definition handleLeaveGame (decoded : option GameRequest)
    : M APIGatewayProxyResponse :=
  match decoded with
  | None =>
      ret {| StatusCode := 400; Body := "Invalid leave game request"; Headers := [] |}
  | Some body =>
      do err <- LeaveGame body;
      match err with
      | Some err =>
          ret {| StatusCode := 400; Body := "Leave Game failed: " ++ Error err;
                 Headers := [] |}
      | None =>
          ret {| StatusCode := 200; Body := "Player Left: " ++ reqPlayerId body;
                 Headers := jsonHeaders |}
      end
  end.

Definition handleGameState (decoded : option GameRequest)
    : M APIGatewayProxyResponse :=
  match decoded with
  | None =>
      ret {| StatusCode := 400; Body := "Invalid game state request"; Headers := [] |}
  | Some body =>
      do result <- GameState body;
      match result with
      | Err err =>
          ret {| StatusCode := 400; Body := "Game state failed: " ++ Error err;
                 Headers := [] |}
      | Ok gameState =>
          ret {| StatusCode := 200; Body := Marshal_bool_map "gameState" gameState;
                 Headers := jsonHeaders |}
      end
  end.

Definition handleIsOwner (decoded : option GameRequest)
    : M APIGatewayProxyResponse :=
  match decoded with
  | None =>
      ret {| StatusCode := 400; Body := "Invalid is owner request"; Headers := [] |}
  | Some body =>
      do result <- IsGameOwner (reqGameId body) (reqPlayerId body);
      match result with
      | Err err =>
          ret {| StatusCode := 400; Body := "Is Owner failed: " ++ Error err;
                 Headers := [] |}
      | Ok isOwner =>
          ret {| StatusCode := 200; Body := Marshal_bool_map "isOwner" isOwner;
                 Headers := jsonHeaders |}
      end
  end.

(** [events.APIGatewayProxyRequest], the two fields the program reads. *)
Record APIGatewayProxyRequest := {
  Path : string;
  RequestBody : string   (* field [Body] *)
}.

(** [HandleRequest]: the [switch] on the path. *)
Definition HandleRequest (J : encoding_json) (request : APIGatewayProxyRequest)
    : M APIGatewayProxyResponse :=
  let body := RequestBody request in
  if String.eqb (Path request) "/createGame" then
    handleCreateGame (Unmarshal_CreateGameRequest J body)
  else if String.eqb (Path request) "/joinGame" then
    handleJoinGame (Unmarshal_JoinGameRequest J body)
  else if String.eqb (Path request) "/deleteGame" then
    handleDeleteGame (Unmarshal_GameRequest J body)
  else if String.eqb (Path request) "/removePlayer" then
    handleRemovePlayer (Unmarshal_RemovePlayerRequest J body)
  else if String.eqb (Path request) "/startGame" then
    handleStartGame (Unmarshal_GameRequest J body)
  else if String.eqb (Path request) "/endGame" then
    handleEndGame (Unmarshal_GameRequest J body)
  else if String.eqb (Path request) "/playerList" then
    handlePlayerList J (Unmarshal_GameRequest J body)
  else if String.eqb (Path request) "/leaveGame" then
    handleLeaveGame (Unmarshal_GameRequest J body)
  else if String.eqb (Path request) "/gameState" then
    handleGameState (Unmarshal_GameRequest J body)
  else if String.eqb (Path request) "/isOwner" then
    handleIsOwner (Unmarshal_GameRequest J body)
  else
    ret {| StatusCode := 404; Body := "Route not found"; Headers := [] |}.

(** The paths [HandleRequest] routes. *)
Definition routes : list string :=
  ["/createGame"; "/joinGame"; "/deleteGame"; "/removePlayer"; "/startGame";
   "/endGame"; "/playerList"; "/leaveGame"; "/gameState"; "/isOwner"].

(** The players the items of a list decode to, in order, the items that do
    not decode left out. *)
Definition decoded_players (items : list Item) : list Player :=
  omap (λ it, match UnmarshalPlayer it with inr p => Some p | inl _ => None end) items.

(** ** Vocabulary of the statements *)

(** The store carries out the next [n] calls. *)
Fixpoint calm (n : nat) (fs : list (option awserr)) : bool :=
  match n, fs with
  | S _, Some _ :: _ => false
  | S n', None :: fs' => calm n' fs'
  | _, _ => true
  end.

(** Every item of a table has, as its key attribute, the key it is stored
    under (what the store keeps of any table). *)
Definition wf_table (t : TableName) (m : gmap string Item) : Prop :=
  map_Forall (λ k (it : Item), it !! KeySchema t = Some (AvS k)) m.

#[global] Instance wf_table_dec t m : Decision (wf_table t m).
Proof. unfold wf_table. apply _. Defined.

Definition wf_world (w : World) : Prop :=
  wf_table gamesTableName (games w) ∧ wf_table playersTableName (players w).

(** A computation keeps the tables well-formed. *)
Definition preserves_wf {A} (m : M A) : Prop :=
  ∀ w, wf_world w → wf_world (m w).2.

(** The errors with which the owner-restricted operations refuse a
    requester: their message starts with [unauthorized:]. *)
Definition Unauthorized (e : error) : bool :=
  String.prefix "unauthorized:" (Error e).

(** The outcome of the next call, and the world once it is taken. *)
Definition head_outcome (w : World) : option awserr := fst (next_outcome w).
Definition pop (w : World) : World := snd (next_outcome w).

(** The members of a session as the index gives them. *)
Definition members_of (gameId : string) (w : World) : list Item :=
  filter (λ it : Item, it !! "gameId" = Some (AvS gameId))
         (snd <$> map_to_list (players w)).

Definition decodes (it : Item) : bool :=
  match UnmarshalPlayer it with
  | inr _ => true
  | inl _ => false
  end.

(** The number of store calls the loop of [DeleteGame] makes before it
    reaches the item at index [i]: one for each item before it that decodes. *)
Definition calls_before (i : nat) (items : list Item) : nat :=
  length (filter (λ it, decodes it = true) (take i items)).

(** The records [CreateGameAndPlayer] builds from a request. *)
Definition gameItem_of (r : CreateGameRequest) : Game :=
  {| GameId := reqGameId (cGameRequest r); GameName := cGameName r;
     HasGameStarted := false; OwnerId := reqPlayerId (cGameRequest r) |}.

Definition playerItem_of (r : CreateGameRequest) : Player :=
  {| PlayerId := reqPlayerId (cGameRequest r); PlayerName := cPlayerName r;
     PlayerGameId := reqGameId (cGameRequest r) |}.

(** The line the loop of [DeleteGame] logs when a delete fails. *)
Definition failed_delete_line (playerId : string) (e : awserr) : string :=
  "Failed to delete player " ++ playerId ++ ": " ++ Error (AwsError e).

(** [playerId]'s delete failed: the loop of [DeleteGame] logged it among
    [lines]. *)
Definition delete_failed (playerId : string) (lines : list string) : Prop :=
  ∃ e, failed_delete_line playerId e ∈ lines.

(** ** Example worlds *)

Definition RequestError : awserr :=
  {| Code := "RequestError"; Message := "send request failed" |}.

Definition settlers : Game :=
  {| GameId := "S1"; GameName := "Settlers"; HasGameStarted := false; OwnerId := "P1" |}.

Definition risk : Game :=
  {| GameId := "S2"; GameName := "Risk"; HasGameStarted := true; OwnerId := "P3" |}.

Definition ann : Player := {| PlayerId := "P1"; PlayerName := "Ann"; PlayerGameId := "S1" |}.
Definition bob : Player := {| PlayerId := "P2"; PlayerName := "Bob"; PlayerGameId := "S1" |}.
Definition cat : Player := {| PlayerId := "P3"; PlayerName := "Cat"; PlayerGameId := "S2" |}.

(** Two sessions: [S1] of [P1] with the members [P1] and [P2], and [S2] of
    [P3] with the member [P3]; the store answers as [fs] says. *)
Definition two_games (fs : list (option awserr)) : World :=
  {| games := <["S1" := MarshalGame settlers]> (<["S2" := MarshalGame risk]> ∅);
     players := <["P1" := MarshalPlayer ann]>
                (<["P2" := MarshalPlayer bob]>
                (<["P3" := MarshalPlayer cat]> ∅));
     faults := fs; log := []; stdout := [] |}.

(** An [encoding_json] for the examples: its decoders refuse every body, and
    a string is written between quotes as it is. *)
Definition rejecting_json : encoding_json :=
  {| Unmarshal_CreateGameRequest := λ _, None;
     Unmarshal_JoinGameRequest := λ _, None;
     Unmarshal_GameRequest := λ _, None;
     Unmarshal_RemovePlayerRequest := λ _, None;
     Marshal_string := λ s, dq ++ s ++ dq |}.

(** ** Basic facts *)

Section Basics.

Implicit Types (w : World) (g : Game) (p : Player) (item : Item).

Lemma next_outcome_eq w : next_outcome w = (head_outcome w, pop w).
Proof. unfold head_outcome, pop. by destruct (next_outcome w). Qed.

Lemma games_pop w : games (pop w) = games w.
Proof. unfold pop, next_outcome. by destruct (faults w). Qed.

Lemma players_pop w : players (pop w) = players w.
Proof. unfold pop, next_outcome. by destruct (faults w). Qed.

Lemma log_pop w : log (pop w) = log w.
Proof. unfold pop, next_outcome. by destruct (faults w). Qed.

Lemma faults_pop w : faults (pop w) = tail (faults w).
Proof. unfold pop, next_outcome. by destruct (faults w) eqn:E. Qed.

Lemma games_log_Printf line w : games (log_Printf line w).2 = games w.
Proof. done. Qed.

Lemma players_log_Printf line w : players (log_Printf line w).2 = players w.
Proof. done. Qed.

Lemma faults_log_Printf line w : faults (log_Printf line w).2 = faults w.
Proof. done. Qed.

Lemma log_log_Printf line w : log (log_Printf line w).2 = (log w ++ [line])%list.
Proof. done. Qed.

Lemma games_set_table t m w :
  games (set_table t m w) = match t with gamesTableName => m | _ => games w end.
Proof. by destruct t. Qed.

Lemma players_set_table t m w :
  players (set_table t m w) = match t with playersTableName => m | _ => players w end.
Proof. by destruct t. Qed.

Lemma faults_set_table t m w : faults (set_table t m w) = faults w.
Proof. by destruct t. Qed.

Lemma log_set_table t m w : log (set_table t m w) = log w.
Proof. by destruct t. Qed.

Lemma head_outcome_set_table t m w : head_outcome (set_table t m w) = head_outcome w.
Proof. unfold head_outcome, next_outcome. rewrite faults_set_table. by destruct (faults w). Qed.

Lemma head_outcome_log_Printf line w :
  head_outcome (log_Printf line w).2 = head_outcome w.
Proof. unfold head_outcome, next_outcome. simpl. by destruct (faults w). Qed.

Lemma head_outcome_lookup w : head_outcome w = default None (faults w !! 0).
Proof. unfold head_outcome, next_outcome. by destruct (faults w). Qed.

Lemma calm_head n w : calm (S n) (faults w) = true → head_outcome w = None.
Proof.
  rewrite head_outcome_lookup. destruct (faults w) as [|[e|] fs]; simpl; congruence.
Qed.

Lemma calm_pop n w : calm (S n) (faults w) = true → calm n (faults (pop w)) = true.
Proof.
  rewrite faults_pop. destruct (faults w) as [|[e|] fs]; simpl; try congruence.
  by destruct n.
Qed.

Lemma key_of_MarshalGame g : key_of gamesTableName (MarshalGame g) = Some (GameId g).
Proof. reflexivity. Qed.

Lemma key_of_MarshalPlayer p : key_of playersTableName (MarshalPlayer p) = Some (PlayerId p).
Proof. reflexivity. Qed.

(** What [MarshalMap] writes, [UnmarshalMap] reads back. *)
Lemma UnmarshalGame_MarshalGame g : UnmarshalGame (MarshalGame g) = inr g.
Proof. by destruct g. Qed.

Lemma UnmarshalPlayer_MarshalPlayer p : UnmarshalPlayer (MarshalPlayer p) = inr p.
Proof. by destruct p. Qed.

(** Setting [hasGameStarted] on an item that decodes changes that field of
    the record it decodes to, and nothing else. *)
Lemma UnmarshalGame_set_started item g b :
  UnmarshalGame item = inr g →
  UnmarshalGame (<["hasGameStarted" := AvBOOL b]> item)
  = inr {| GameId := GameId g; GameName := GameName g;
           HasGameStarted := b; OwnerId := OwnerId g |}.
Proof.
  unfold UnmarshalGame.
  rewrite (lookup_insert_ne item "hasGameStarted" "gameId") by done.
  rewrite (lookup_insert_ne item "hasGameStarted" "gameName") by done.
  rewrite (lookup_insert_ne item "hasGameStarted" "ownerId") by done.
  rewrite lookup_insert_eq.
  destruct (decodeString (item !! "gameId")); [discriminate|].
  destruct (decodeString (item !! "gameName")); [discriminate|].
  destruct (decodeBool (item !! "hasGameStarted")); [discriminate|].
  destruct (decodeString (item !! "ownerId")); [discriminate|].
  intros [= <-]. reflexivity.
Qed.

(** On a well-formed players table an item that decodes carries its key. *)
Lemma UnmarshalPlayer_key (m : gmap string Item) k item p :
  wf_table playersTableName m → m !! k = Some item →
  UnmarshalPlayer item = inr p → PlayerId p = k.
Proof.
  intros Hwf Hk. specialize (Hwf k item Hk). simpl in Hwf.
  unfold UnmarshalPlayer. rewrite Hwf. simpl.
  destruct (decodeString (item !! "playerName")); [discriminate|].
  destruct (decodeString (item !! "gameId")); [discriminate|].
  by intros [= <-].
Qed.

(** The equations of the store calls. *)
Lemma GetItem_games_eq gid w :
  GetItem gamesTableName ("gameId", gid) w
  = (match head_outcome w with
     | Some e => inl e
     | None => inr (games w !! gid)
     end, pop w).
Proof.
  unfold GetItem, bind. rewrite next_outcome_eq.
  destruct (head_outcome w); [done|]. simpl. by rewrite games_pop.
Qed.

Lemma DeleteItem_players_eq pid w :
  DeleteItem playersTableName ("playerId", pid) w
  = match head_outcome w with
    | Some e => (Some e, pop w)
    | None => (None, set_table playersTableName (delete pid (players w)) (pop w))
    end.
Proof.
  unfold DeleteItem, bind. rewrite next_outcome_eq.
  destruct (head_outcome w); [done|]. simpl. by rewrite players_pop.
Qed.

Lemma DeleteItem_games_eq gid w :
  DeleteItem gamesTableName ("gameId", gid) w
  = match head_outcome w with
    | Some e => (Some e, pop w)
    | None => (None, set_table gamesTableName (delete gid (games w)) (pop w))
    end.
Proof.
  unfold DeleteItem, bind. rewrite next_outcome_eq.
  destruct (head_outcome w); [done|]. simpl. by rewrite games_pop.
Qed.

Lemma Query_members_eq gid w :
  Query playersTableName "gameIdIndex" ("gameId", gid) w
  = (match head_outcome w with
     | Some e => inl e
     | None => inr (members_of gid w)
     end, pop w).
Proof.
  unfold Query, bind. rewrite next_outcome_eq.
  destruct (head_outcome w); [done|]. simpl.
  unfold members_of. by rewrite players_pop.
Qed.

Lemma IsGameOwner_eq gid pid w :
  IsGameOwner gid pid w
  = (match head_outcome w with
     | Some e => Err (wrapError "failed to get game: " (AwsError e))
     | None =>
       match games w !! gid with
       | None => Err (errorString ("game with ID " ++ gid ++ " not found"))
       | Some item =>
         match UnmarshalGame item with
         | inl e => Err (wrapError "failed to unmarshal game: " (AwsError e))
         | inr game => Ok (String.eqb (OwnerId game) pid)
         end
       end
     end, pop w).
Proof.
  unfold IsGameOwner, bind. rewrite GetItem_games_eq.
  destruct (head_outcome w); [done|].
  destruct (games w !! gid) as [item|]; [|done].
  by destruct (UnmarshalGame item).
Qed.

Lemma IsGameOwner_owner gid pid w item game :
  calm 1 (faults w) = true → games w !! gid = Some item →
  UnmarshalGame item = inr game →
  IsGameOwner gid pid w = (Ok (String.eqb (OwnerId game) pid), pop w).
Proof.
  intros Hc Hg Hu. rewrite IsGameOwner_eq, (calm_head 0 w Hc), Hg, Hu. done.
Qed.

End Basics.

Create Rewrite HintDb world.
#[global] Hint Rewrite games_pop players_pop log_pop faults_pop
  games_log_Printf players_log_Printf faults_log_Printf log_log_Printf
  games_set_table players_set_table faults_set_table log_set_table
  head_outcome_set_table head_outcome_log_Printf : world.

(** ** Well-formed tables stay well-formed *)

Section WellFormed.

Lemma wf_world_set_table t m w :
  wf_world w → wf_table t m → wf_world (set_table t m w).
Proof. intros [Hg Hp] Hm. by destruct t. Qed.

Lemma wf_world_table t w : wf_world w → wf_table t (table t w).
Proof. intros [Hg Hp]. by destruct t. Qed.

Lemma preserves_wf_ret {A} (a : A) : preserves_wf (ret a).
Proof. by intros w Hw. Qed.

Lemma preserves_wf_bind {A B} (m : M A) (k : A → M B) :
  preserves_wf m → (∀ a, preserves_wf (k a)) → preserves_wf (bind m k).
Proof.
  intros Hm Hk w Hw. unfold bind. specialize (Hm w Hw).
  destruct (m w) as [a w1]. by apply Hk.
Qed.

Lemma preserves_wf_next_outcome : preserves_wf next_outcome.
Proof.
  intros w [Hg Hp]. unfold next_outcome. by destruct (faults w).
Qed.

Lemma preserves_wf_log_Printf line : preserves_wf (log_Printf line).
Proof. by intros w Hw. Qed.

Lemma preserves_wf_fmt_Printf text : preserves_wf (fmt_Printf text).
Proof. by intros w Hw. Qed.

Lemma wf_world_put_apply w p : wf_world w → wf_world (put_apply w p).
Proof.
  intros Hw. unfold put_apply, key_of.
  destruct (PutItem_ p !! KeySchema (PutTableName p)) as [[k| |]|] eqn:E; try done.
  apply wf_world_set_table; [done|].
  apply map_Forall_insert_2; [done|]. by apply wf_world_table.
Qed.

Lemma preserves_wf_PutItem p : preserves_wf (PutItem p).
Proof.
  apply preserves_wf_bind; [apply preserves_wf_next_outcome|].
  intros [e|]; [apply preserves_wf_ret|]. intros w Hw.
  destruct (negb (put_valid p)); [done|].
  destruct (put_allowed w p); [|done]. by apply wf_world_put_apply.
Qed.

Lemma preserves_wf_TransactWriteItems ps : preserves_wf (TransactWriteItems ps).
Proof.
  apply preserves_wf_bind; [apply preserves_wf_next_outcome|].
  intros [e|]; [apply preserves_wf_ret|]. intros w Hw.
  destruct (negb (forallb put_valid ps)); [done|].
  destruct (forallb (put_allowed w) ps); [|done]. cbn [snd].
  clear -Hw. revert w Hw. induction ps as [|p ps IH]; intros w Hw; [done|].
  simpl. apply IH. by apply wf_world_put_apply.
Qed.

Lemma preserves_wf_GetItem t k : preserves_wf (GetItem t k).
Proof.
  apply preserves_wf_bind; [apply preserves_wf_next_outcome|].
  intros [e|]; [apply preserves_wf_ret|]. intros w Hw.
  by destruct (negb (key_valid t k)).
Qed.

Lemma preserves_wf_Query t index cond : preserves_wf (Query t index cond).
Proof.
  apply preserves_wf_bind; [apply preserves_wf_next_outcome|].
  intros [e|]; [apply preserves_wf_ret|]. intros w Hw.
  destruct t; [done|]. by destruct (_ && _).
Qed.

Lemma preserves_wf_DeleteItem t k : preserves_wf (DeleteItem t k).
Proof.
  apply preserves_wf_bind; [apply preserves_wf_next_outcome|].
  intros [e|]; [apply preserves_wf_ret|]. intros w Hw.
  destruct (negb (key_valid t k)); [done|]. cbn [snd].
  apply wf_world_set_table; [done|].
  apply map_Forall_delete. by apply wf_world_table.
Qed.

(** An update that does not set the key attribute. *)
Lemma preserves_wf_UpdateItem_SET t k attr v :
  attr ≠ KeySchema t → preserves_wf (UpdateItem_SET t k attr v).
Proof.
  intros Hattr.
  apply preserves_wf_bind; [apply preserves_wf_next_outcome|].
  intros [e|]; [apply preserves_wf_ret|]. intros w Hw.
  destruct (key_valid t k) eqn:Hk; [|done]. cbn [negb snd].
  apply String.eqb_eq in Hk.
  apply wf_world_set_table; [done|].
  apply map_Forall_insert_2; [|by apply wf_world_table].
  rewrite lookup_insert_ne by done.
  destruct (table t w !! k.2) as [it|] eqn:E; simpl.
  - by apply (wf_world_table t w Hw k.2 it).
  - rewrite <- Hk. apply lookup_singleton_eq.
Qed.

Lemma preserves_wf_IsGameOwner gameId playerId :
  preserves_wf (IsGameOwner gameId playerId).
Proof.
  apply preserves_wf_bind; [apply preserves_wf_GetItem|].
  intros [e|[item|]]; try apply preserves_wf_ret.
  destruct (UnmarshalGame item); apply preserves_wf_ret.
Qed.

Lemma preserves_wf_deletePlayers items : preserves_wf (deletePlayers items).
Proof.
  induction items as [|it items IH]; [apply preserves_wf_ret|].
  cbn [deletePlayers]. destruct (UnmarshalPlayer it) as [err|p].
  - apply preserves_wf_bind; [apply preserves_wf_log_Printf|done].
  - apply preserves_wf_bind; [apply preserves_wf_DeleteItem|].
    intros err. apply preserves_wf_bind; [|done].
    destruct err; apply preserves_wf_log_Printf.
Qed.

Lemma preserves_wf_collectPlayers items : ∀ acc, preserves_wf (collectPlayers items acc).
Proof.
  induction items as [|it items IH]; intros acc; [apply preserves_wf_ret|].
  cbn [collectPlayers]. destruct (UnmarshalPlayer it) as [err|p]; [|done].
  apply preserves_wf_bind; [apply preserves_wf_log_Printf|done].
Qed.

Lemma preserves_wf_SetGameState state gameId :
  preserves_wf (SetGameState state gameId).
Proof.
  apply preserves_wf_bind; [by apply preserves_wf_UpdateItem_SET|].
  intros [e|]; apply preserves_wf_ret.
Qed.

(** X22. Every operation of the coordinator leaves well-formed tables
    well-formed: whatever the store answers, each item stays under the key
    that its key attribute names. *)
Theorem coordinator_preserves_wf :
  (∀ r, preserves_wf (CreateGameAndPlayer r))
  ∧ (∀ r, preserves_wf (JoinGame r))
  ∧ (∀ r, preserves_wf (CreatePlayer r))
  ∧ (∀ r, preserves_wf (DeleteGame r))
  ∧ (∀ r, preserves_wf (RemovePlayer r))
  ∧ (∀ r, preserves_wf (StartGame r))
  ∧ (∀ r, preserves_wf (EndGame r))
  ∧ (∀ r, preserves_wf (PlayerList r))
  ∧ (∀ r, preserves_wf (LeaveGame r))
  ∧ (∀ r, preserves_wf (GameState r)).
Proof.
  split_and!; intros r.
  - apply preserves_wf_bind; [apply preserves_wf_TransactWriteItems|].
    intros [e|]; [apply preserves_wf_ret|].
    apply preserves_wf_bind; [apply preserves_wf_fmt_Printf|].
    intros _. apply preserves_wf_ret.
  - apply preserves_wf_bind; [apply preserves_wf_GetItem|].
    intros [e|[item|]]; apply preserves_wf_ret.
  - apply preserves_wf_bind; [apply preserves_wf_PutItem|].
    intros [e|]; [apply preserves_wf_ret|].
    apply preserves_wf_bind; [apply preserves_wf_fmt_Printf|].
    intros _. apply preserves_wf_ret.
  - apply preserves_wf_bind; [apply preserves_wf_IsGameOwner|].
    intros [[|]|e]; try apply preserves_wf_ret.
    apply preserves_wf_bind; [apply preserves_wf_DeleteItem|].
    intros [e|]; [apply preserves_wf_ret|].
    apply preserves_wf_bind; [apply preserves_wf_log_Printf|]. intros _.
    apply preserves_wf_bind; [apply preserves_wf_Query|].
    intros [e|items]; [apply preserves_wf_ret|].
    apply preserves_wf_bind; [apply preserves_wf_deletePlayers|].
    intros _. apply preserves_wf_ret.
  - apply preserves_wf_bind; [apply preserves_wf_IsGameOwner|].
    intros [[|]|e]; try apply preserves_wf_ret.
    apply preserves_wf_bind; [apply preserves_wf_DeleteItem|].
    intros [e|]; [apply preserves_wf_ret|].
    apply preserves_wf_bind; [apply preserves_wf_log_Printf|].
    intros _. apply preserves_wf_ret.
  - apply preserves_wf_bind; [apply preserves_wf_IsGameOwner|].
    intros [[|]|e]; try apply preserves_wf_ret.
    apply preserves_wf_bind; [apply preserves_wf_SetGameState|].
    intros [e|]; apply preserves_wf_ret.
  - apply preserves_wf_bind; [apply preserves_wf_IsGameOwner|].
    intros [[|]|e]; try apply preserves_wf_ret.
    apply preserves_wf_bind; [apply preserves_wf_SetGameState|].
    intros [e|]; apply preserves_wf_ret.
  - apply preserves_wf_bind; [apply preserves_wf_IsGameOwner|].
    intros [[|]|e]; try apply preserves_wf_ret.
    apply preserves_wf_bind; [apply preserves_wf_Query|].
    intros [e|items]; [apply preserves_wf_ret|].
    apply preserves_wf_bind; [apply preserves_wf_collectPlayers|].
    intros l. apply preserves_wf_ret.
  - apply preserves_wf_bind; [apply preserves_wf_DeleteItem|].
    intros [e|]; [apply preserves_wf_ret|].
    apply preserves_wf_bind; [apply preserves_wf_log_Printf|].
    intros _. apply preserves_wf_ret.
  - apply preserves_wf_bind; [apply preserves_wf_GetItem|].
    intros [e|[item|]]; try apply preserves_wf_ret.
    destruct (UnmarshalGame item); apply preserves_wf_ret.
Qed.

End WellFormed.

(** ** IsGameOwner *)

(** C6. [IsGameOwner gameId playerId] changes neither table, whatever the
    store answers; when the store carries out the read, it fails with the
    not-found error if no game is stored under [gameId], and otherwise
    returns whether the owner of the stored game is [playerId]. *)
Theorem IsGameOwner_spec (w : World) (gameId playerId : string) :
  games (IsGameOwner gameId playerId w).2 = games w
  ∧ players (IsGameOwner gameId playerId w).2 = players w
  ∧ (calm 1 (faults w) = true →
     match games w !! gameId with
     | None =>
         (IsGameOwner gameId playerId w).1
         = Err (errorString ("game with ID " ++ gameId ++ " not found"))
     | Some item =>
         ∀ game, UnmarshalGame item = inr game →
           (IsGameOwner gameId playerId w).1 = Ok (String.eqb (OwnerId game) playerId)
     end).
Proof.
  rewrite IsGameOwner_eq. simpl. rewrite games_pop, players_pop.
  split; [done|]. split; [done|].
  intros Hc. rewrite (calm_head 0 w Hc).
  destruct (games w !! gameId) as [item|]; [|done].
  intros game Hu. by rewrite Hu.
Qed.

Lemma IsGameOwner_spec_witness :
  (IsGameOwner "S1" "P1" (two_games [])).1 = Ok true
  ∧ (IsGameOwner "S1" "P2" (two_games [])).1 = Ok false
  ∧ (IsGameOwner "S9" "P1" (two_games [])).1
    = Err (errorString "game with ID S9 not found")
  ∧ games (IsGameOwner "S1" "P1" (two_games [Some RequestError])).2
    = games (two_games []).
Proof.
  split; [|split; [|split]].
  - destruct (IsGameOwner_spec (two_games []) "S1" "P1") as (_ & _ & H).
    exact (H eq_refl settlers eq_refl).
  - destruct (IsGameOwner_spec (two_games []) "S1" "P2") as (_ & _ & H).
    exact (H eq_refl settlers eq_refl).
  - destruct (IsGameOwner_spec (two_games []) "S9" "P1") as (_ & _ & H).
    exact (H eq_refl).
  - destruct (IsGameOwner_spec (two_games [Some RequestError]) "S1" "P1") as (H & _).
    exact H.
Defined.

(** ** LeaveGame *)

(** C8. [LeaveGame] deletes the player stored under the [PlayerId] of the
    request and nothing else, without reading the games table: it never fails
    with an unauthorized error, and when the store carries out the delete it
    succeeds, also when no such player is stored, in which case both tables
    are left as they were. *)
Theorem LeaveGame_spec (w : World) (gameRequest : GameRequest) :
  (∀ err, (LeaveGame gameRequest w).1 = Some err → Unauthorized err = false)
  ∧ games (LeaveGame gameRequest w).2 = games w
  ∧ (calm 1 (faults w) = true →
     (LeaveGame gameRequest w).1 = None
     ∧ players (LeaveGame gameRequest w).2
       = delete (reqPlayerId gameRequest) (players w)
     ∧ (players w !! reqPlayerId gameRequest = None →
        players (LeaveGame gameRequest w).2 = players w)).
Proof.
  unfold LeaveGame, bind. rewrite DeleteItem_players_eq.
  destruct (head_outcome w) as [e|] eqn:Hh; simpl.
  - split; [by intros err [= <-]|]. split; [apply games_pop|].
    intros Hc. rewrite (calm_head 0 w Hc) in Hh. discriminate.
  - split; [discriminate|]. split; [apply games_pop|].
    intros _. split; [done|]. split; [done|].
    intros Hnone. by apply delete_id.
Qed.

Lemma LeaveGame_spec_witness :
  (LeaveGame {| reqGameId := "S1"; reqPlayerId := "P9" |} (two_games [])).1 = None
  ∧ players (LeaveGame {| reqGameId := "S1"; reqPlayerId := "P9" |} (two_games [])).2
    = players (two_games [])
  ∧ (LeaveGame {| reqGameId := "S2"; reqPlayerId := "P2" |} (two_games [])).1 = None
  ∧ players (LeaveGame {| reqGameId := "S2"; reqPlayerId := "P2" |} (two_games [])).2 !! "P2"
    = None.
Proof.
  destruct (LeaveGame_spec (two_games []) {| reqGameId := "S1"; reqPlayerId := "P9" |})
    as (_ & _ & H1).
  destruct (H1 eq_refl) as (Hok1 & _ & Hsame).
  destruct (LeaveGame_spec (two_games []) {| reqGameId := "S2"; reqPlayerId := "P2" |})
    as (_ & _ & H2).
  destruct (H2 eq_refl) as (Hok2 & Hdel & _).
  split; [exact Hok1|]. split; [exact (Hsame eq_refl)|]. split; [exact Hok2|].
  rewrite Hdel. reflexivity.
Defined.

(** ** RemovePlayer *)

(** C9. [RemovePlayer] deletes the player stored under [PlayerIdToRemove]
    without looking at the game that player belongs to: when the requester
    owns the game of the request and the store carries out the two calls, it
    succeeds, the player is gone whatever its record says, and nothing else
    changes. *)
Theorem RemovePlayer_any_game (w : World) (req : RemovePlayerRequest)
    (item : Item) (game : Game) :
  games w !! reqGameId (rGameRequest req) = Some item →
  UnmarshalGame item = inr game →
  OwnerId game = reqPlayerId (rGameRequest req) →
  calm 2 (faults w) = true →
  (RemovePlayer req w).1 = None
  ∧ players (RemovePlayer req w).2 = delete (PlayerIdToRemove req) (players w)
  ∧ players (RemovePlayer req w).2 !! PlayerIdToRemove req = None
  ∧ games (RemovePlayer req w).2 = games w.
Proof.
  intros Hg Hu Ho Hc. unfold RemovePlayer, bind.
  rewrite (IsGameOwner_owner _ _ w item game) by (try done; by destruct (faults w) as [|[?|] ?]).
  rewrite Ho, String.eqb_refl. rewrite DeleteItem_players_eq.
  rewrite (calm_head 0 (pop w)) by (by apply calm_pop).
  simpl. rewrite !players_pop, !games_pop.
  split; [done|]. split; [done|]. split; [apply lookup_delete_eq|done].
Qed.

(** The owner [P1] of [S1] removes [P3], a member of [S2]. *)
Lemma RemovePlayer_any_game_witness :
  players (two_games []) !! "P3" = Some (MarshalPlayer cat)
  ∧ PlayerGameId cat ≠ "S1"
  ∧ (RemovePlayer {| rGameRequest := {| reqGameId := "S1"; reqPlayerId := "P1" |};
                     PlayerIdToRemove := "P3" |} (two_games [])).1 = None
  ∧ players (RemovePlayer {| rGameRequest := {| reqGameId := "S1"; reqPlayerId := "P1" |};
                             PlayerIdToRemove := "P3" |} (two_games [])).2 !! "P3" = None.
Proof.
  split; [reflexivity|]. split; [discriminate|].
  destruct (RemovePlayer_any_game (two_games [])
              {| rGameRequest := {| reqGameId := "S1"; reqPlayerId := "P1" |};
                 PlayerIdToRemove := "P3" |}
              (MarshalGame settlers) settlers eq_refl eq_refl eq_refl eq_refl)
    as (Hok & _ & Hgone & _).
  split; [exact Hok | exact Hgone].
Defined.

(** ** The ownership gate *)

Section OwnershipGate.

Variables (w : World) (gameRequest : GameRequest) (item : Item) (game : Game).

Hypothesis Hstored : games w !! reqGameId gameRequest = Some item.
Hypothesis Hdecodes : UnmarshalGame item = inr game.
Hypothesis Hread : calm 1 (faults w) = true.

Lemma IsGameOwner_stored :
  IsGameOwner (reqGameId gameRequest) (reqPlayerId gameRequest) w
  = (Ok (String.eqb (OwnerId game) (reqPlayerId gameRequest)), pop w).
Proof. by apply IsGameOwner_owner with item. Qed.

Hypothesis Hother : OwnerId game ≠ reqPlayerId gameRequest.

Lemma IsGameOwner_other :
  IsGameOwner (reqGameId gameRequest) (reqPlayerId gameRequest) w = (Ok false, pop w).
Proof.
  rewrite IsGameOwner_stored. f_equal. f_equal. by apply String.eqb_neq.
Qed.

(** C2. On a stored game, each of [DeleteGame], [RemovePlayer], [StartGame],
    [EndGame] and [PlayerList], called by a requester who is not the owner of
    the game, returns an unauthorized error and leaves the games table and
    the players table as they were (the store carrying out the read of the
    game). *)
Theorem not_owner_unauthorized_no_mutation (playerIdToRemove : string) :
  let removeRequest :=
    {| rGameRequest := gameRequest; PlayerIdToRemove := playerIdToRemove |} in
  ((DeleteGame gameRequest w).1
     = Some (errorString "unauthorized: only the game owner can delete this game")
   ∧ games (DeleteGame gameRequest w).2 = games w
   ∧ players (DeleteGame gameRequest w).2 = players w)
  ∧ ((RemovePlayer removeRequest w).1
     = Some (errorString "unauthorized: only the game owner can remove a player")
   ∧ games (RemovePlayer removeRequest w).2 = games w
   ∧ players (RemovePlayer removeRequest w).2 = players w)
  ∧ ((StartGame gameRequest w).1
     = Some (errorString "unauthorized: only the game owner can start this game")
   ∧ games (StartGame gameRequest w).2 = games w
   ∧ players (StartGame gameRequest w).2 = players w)
  ∧ ((EndGame gameRequest w).1
     = Some (errorString "unauthorized: only the game owner can end this game")
   ∧ games (EndGame gameRequest w).2 = games w
   ∧ players (EndGame gameRequest w).2 = players w)
  ∧ ((PlayerList gameRequest w).1
     = Err (errorString "unauthorized: only the game owner can end this game")
   ∧ games (PlayerList gameRequest w).2 = games w
   ∧ players (PlayerList gameRequest w).2 = players w)
  ∧ (∀ err, In (Some err) [(DeleteGame gameRequest w).1; (RemovePlayer removeRequest w).1;
                            (StartGame gameRequest w).1; (EndGame gameRequest w).1] →
            Unauthorized err = true)
  ∧ (∀ err, (PlayerList gameRequest w).1 = Err err → Unauthorized err = true).
Proof.
  intros removeRequest.
  unfold DeleteGame, RemovePlayer, StartGame, EndGame, PlayerList, bind.
  subst removeRequest. simpl. rewrite !IsGameOwner_other. simpl.
  rewrite games_pop, players_pop.
  split_and!; try done.
  - intros err [H|[H|[H|[H|[]]]]]; injection H as <-; reflexivity.
  - intros err [= <-]. reflexivity.
Qed.

End OwnershipGate.

(** [P2], a member but not the owner of [S1], tries each operation. *)
Lemma not_owner_unauthorized_no_mutation_witness :
  let w := two_games [] in
  let gameRequest := {| reqGameId := "S1"; reqPlayerId := "P2" |} in
  (DeleteGame gameRequest w).1
    = Some (errorString "unauthorized: only the game owner can delete this game")
  ∧ games (DeleteGame gameRequest w).2 = games w
  ∧ players (DeleteGame gameRequest w).2 = players w
  ∧ (StartGame gameRequest w).1
    = Some (errorString "unauthorized: only the game owner can start this game")
  ∧ games (StartGame gameRequest w).2 = games w.
Proof.
  intros w gameRequest.
  destruct (not_owner_unauthorized_no_mutation w gameRequest (MarshalGame settlers)
              settlers eq_refl eq_refl eq_refl ltac:(discriminate) "P1")
    as ((H1 & H2 & H3) & _ & (H4 & H5 & _) & _).
  split_and!; assumption.
Defined.

(** ** StartGame and EndGame *)

Section StartEnd.

Variables (w : World) (gameRequest : GameRequest) (item : Item) (game : Game).

Hypothesis Hstored : games w !! reqGameId gameRequest = Some item.
Hypothesis Hdecodes : UnmarshalGame item = inr game.
Hypothesis Howner : OwnerId game = reqPlayerId gameRequest.

Lemma set_started_owner (state : bool) :
  calm 2 (faults w) = true →
  (if state then StartGame gameRequest else EndGame gameRequest) w
  = (None, set_table gamesTableName
             (<[reqGameId gameRequest := <["hasGameStarted" := AvBOOL state]> item]>
                (games w))
             (pop (pop w))).
Proof.
  intros Hc.
  assert (calm 1 (faults w) = true) as Hc1 by (by destruct (faults w) as [|[?|] ?]).
  assert (head_outcome (pop w) = None) as Hh
    by (apply (calm_head 0); by apply calm_pop).
  destruct state; unfold StartGame, EndGame, bind;
    rewrite (IsGameOwner_stored w gameRequest item game Hstored Hdecodes Hc1);
    rewrite Howner, String.eqb_refl;
    unfold SetGameState, UpdateItem_SET, bind;
    rewrite next_outcome_eq, Hh; simpl;
    rewrite !games_pop, Hstored; reflexivity.
Qed.

End StartEnd.

Lemma set_twice (w : World) (gameRequest : GameRequest)
    (item : Item) (game : Game) (state : bool) :
  games w !! reqGameId gameRequest = Some item →
  UnmarshalGame item = inr game →
  OwnerId game = reqPlayerId gameRequest →
  calm 4 (faults w) = true →
  let op := if state then StartGame gameRequest else EndGame gameRequest in
  let first := op w in
  let second := op first.2 in
  first.1 = None
  ∧ second.1 = None
  ∧ games second.2 = games first.2
  ∧ players second.2 = players w
  ∧ ∃ item',
      games second.2 !! reqGameId gameRequest = Some item'
      ∧ UnmarshalGame item'
        = inr {| GameId := GameId game; GameName := GameName game;
                 HasGameStarted := state; OwnerId := OwnerId game |}.
Proof.
  intros Hg Hu Ho Hc. cbv zeta.
  assert (calm 2 (faults w) = true) as Hc2
    by (destruct (faults w) as [|[?|] [|[?|] ?]]; done).
  assert (calm 2 (faults (pop (pop w))) = true) as Hc2'
    by (rewrite !faults_pop; destruct (faults w) as [|[?|] [|[?|] [|[?|] [|[?|] ?]]]]; done).
  rewrite (set_started_owner w gameRequest item game Hg Hu Ho state Hc2).
  cbn [fst snd].
  set (item1 := <["hasGameStarted" := AvBOOL state]> item).
  set (w1 := set_table gamesTableName _ _).
  assert (games w1 !! reqGameId gameRequest = Some item1) as Hg1
    by (subst w1; simpl; apply lookup_insert_eq).
  assert (UnmarshalGame item1 = inr {| GameId := GameId game; GameName := GameName game;
                                       HasGameStarted := state; OwnerId := OwnerId game |})
    as Hu1 by (by apply UnmarshalGame_set_started).
  rewrite (set_started_owner w1 gameRequest item1 _ Hg1 Hu1 Ho state)
    by (subst w1; simpl; exact Hc2').
  simpl. subst w1. simpl. rewrite !players_pop.
  split; [done|]. split; [done|]. split.
  - subst item1. rewrite insert_insert_eq. by rewrite insert_insert_eq.
  - split; [done|]. exists (<["hasGameStarted" := AvBOOL state]> item1).
    split; [apply lookup_insert_eq|].
    apply (UnmarshalGame_set_started item1 _ state) in Hu1. exact Hu1.
Qed.

(** C7. For the owner of a stored game, with the store carrying out the four
    calls, two calls of [StartGame] in a row both return no error and leave
    the game started, and two calls of [EndGame] in a row both return no
    error and leave it not started, whatever the flag was before; the second
    call leaves the tables as the first left them. *)
Theorem StartGame_EndGame_idempotent (w : World) (gameRequest : GameRequest)
    (item : Item) (game : Game) :
  games w !! reqGameId gameRequest = Some item →
  UnmarshalGame item = inr game →
  OwnerId game = reqPlayerId gameRequest →
  calm 4 (faults w) = true →
  let started_is (state : bool) (w' : World) : Prop :=
    ∃ item', games w' !! reqGameId gameRequest = Some item'
             ∧ UnmarshalGame item'
               = inr {| GameId := GameId game; GameName := GameName game;
                        HasGameStarted := state; OwnerId := OwnerId game |} in
  let start1 := StartGame gameRequest w in
  let start2 := StartGame gameRequest start1.2 in
  let end1 := EndGame gameRequest w in
  let end2 := EndGame gameRequest end1.2 in
  (start1.1 = None ∧ start2.1 = None
   ∧ started_is true start1.2 ∧ started_is true start2.2
   ∧ games start2.2 = games start1.2 ∧ players start2.2 = players w)
  ∧ (end1.1 = None ∧ end2.1 = None
   ∧ started_is false end1.2 ∧ started_is false end2.2
   ∧ games end2.2 = games end1.2 ∧ players end2.2 = players w).
Proof.
  intros Hg Hu Ho Hc. cbv zeta.
  destruct (set_twice w gameRequest item game true Hg Hu Ho Hc)
    as (Hs1 & Hs2 & Hsg & Hsp & Hsf).
  destruct (set_twice w gameRequest item game false Hg Hu Ho Hc)
    as (He1 & He2 & Heg & Hep & Hef).
  cbv zeta in *. split.
  - split_and!; try done. by rewrite <- Hsg.
  - split_and!; try done. by rewrite <- Heg.
Qed.

(** [P1] starts [S1] twice, and [P3] ends [S2], which is started, twice. *)
Lemma StartGame_EndGame_idempotent_witness :
  let start := {| reqGameId := "S1"; reqPlayerId := "P1" |} in
  let stop := {| reqGameId := "S2"; reqPlayerId := "P3" |} in
  ((StartGame start (two_games [])).1 = None
   ∧ (StartGame start (StartGame start (two_games [])).2).1 = None
   ∧ games (StartGame start (StartGame start (two_games [])).2).2
     = games (StartGame start (two_games [])).2)
  ∧ ((EndGame stop (two_games [])).1 = None
   ∧ (EndGame stop (EndGame stop (two_games [])).2).1 = None
   ∧ games (EndGame stop (EndGame stop (two_games [])).2).2
     = games (EndGame stop (two_games [])).2).
Proof.
  intros start stop. split.
  - destruct (StartGame_EndGame_idempotent (two_games []) start (MarshalGame settlers)
                settlers eq_refl eq_refl eq_refl eq_refl)
      as ((H1 & H2 & _ & _ & H3 & _) & _).
    repeat split; assumption.
  - destruct (StartGame_EndGame_idempotent (two_games []) stop (MarshalGame risk)
                risk eq_refl eq_refl eq_refl eq_refl)
      as (_ & (H1 & H2 & _ & _ & H3 & _)).
    repeat split; assumption.
Defined.

(** ** The cascade of DeleteGame *)

Section Cascade.

Implicit Types (w : World) (items : list Item) (it : Item) (p : Player).

#[local] Arguments pop : simpl never.
#[local] Arguments log_Printf : simpl never.
#[local] Arguments set_table : simpl never.

Lemma deletePlayers_cons it items w :
  deletePlayers (it :: items) w
  = match UnmarshalPlayer it with
    | inl err =>
        deletePlayers items
          (log_Printf ("Failed to unmarshal player: " ++ Error (AwsError err)) w).2
    | inr p =>
        match head_outcome w with
        | Some e =>
            deletePlayers items
              (log_Printf (failed_delete_line (PlayerId p) e) (pop w)).2
        | None =>
            deletePlayers items
              (log_Printf ("Deleted player: " ++ PlayerId p)
                 (set_table playersTableName (delete (PlayerId p) (players w)) (pop w))).2
        end
    end.
Proof.
  cbn [deletePlayers]. destruct (UnmarshalPlayer it) as [err|p]; [done|].
  unfold bind. rewrite DeleteItem_players_eq.
  by destruct (head_outcome w).
Qed.

Lemma deletePlayers_games items : ∀ w, games (deletePlayers items w).2 = games w.
Proof.
  induction items as [|it items IH]; intros w; [done|].
  rewrite deletePlayers_cons.
  destruct (UnmarshalPlayer it) as [err|p]; [|destruct (head_outcome w)];
    rewrite IH; by autorewrite with world.
Qed.

(** The loop only deletes: what it leaves was there before. *)
Lemma deletePlayers_subset items : ∀ w k it,
  players (deletePlayers items w).2 !! k = Some it → players w !! k = Some it.
Proof.
  induction items as [|it0 items IH]; intros w k it; [done|].
  rewrite deletePlayers_cons.
  destruct (UnmarshalPlayer it0) as [err|p]; [|destruct (head_outcome w)];
    intros H; apply IH in H; autorewrite with world in H; [done|done|].
  by apply lookup_delete_Some in H as [_ ?].
Qed.

Lemma deletePlayers_gone items w k :
  players w !! k = None → players (deletePlayers items w).2 !! k = None.
Proof.
  intros Hn. destruct (players (deletePlayers items w).2 !! k) as [it|] eqn:E; [|done].
  apply deletePlayers_subset in E. congruence.
Qed.

(** Every item is processed: the loop writes one line for each. *)
Lemma deletePlayers_log items : ∀ w,
  ∃ lines, log (deletePlayers items w).2 = (log w ++ lines)%list
           ∧ length lines = length items.
Proof.
  induction items as [|it items IH]; intros w.
  - exists []. simpl. by rewrite app_nil_r.
  - rewrite deletePlayers_cons.
    destruct (UnmarshalPlayer it) as [err|p]; [|destruct (head_outcome w)].
    all: match goal with |- context [deletePlayers _ ?w1] =>
           destruct (IH w1) as (lines & -> & Hlen) end.
    all: autorewrite with world; rewrite <- app_assoc; eexists; split; [reflexivity|];
         simpl; by rewrite Hlen.
Qed.

(** An item that decodes is deleted when the store carries out the call made
    for it, whatever happened to the calls made for the others. *)
Lemma deletePlayers_attempt items : ∀ w i it p,
  items !! i = Some it → UnmarshalPlayer it = inr p →
  (∀ e, faults w !! calls_before i items ≠ Some (Some e)) →
  players (deletePlayers items w).2 !! PlayerId p = None.
Proof.
  induction items as [|it0 items IH]; intros w i it p Hi Hu Hf; [done|].
  rewrite deletePlayers_cons. destruct i as [|i].
  - simpl in Hi. injection Hi as ->. rewrite Hu.
    unfold calls_before in Hf. simpl in Hf.
    destruct (head_outcome w) as [e|] eqn:Hh.
    + exfalso. rewrite head_outcome_lookup in Hh.
      destruct (faults w !! 0) as [[e'|]|] eqn:E; simpl in Hh; try discriminate.
      by apply (Hf e').
    + apply deletePlayers_gone. autorewrite with world. apply lookup_delete_eq.
  - simpl in Hi. unfold calls_before in Hf. simpl in Hf.
    destruct (UnmarshalPlayer it0) as [err|p0] eqn:Hu0.
    + rewrite filter_cons_False in Hf by (unfold decodes; rewrite Hu0; done).
      apply (IH _ i it p Hi Hu). intros e. autorewrite with world. apply Hf.
    + rewrite filter_cons_True in Hf by (unfold decodes; rewrite Hu0; done).
      simpl in Hf.
      destruct (head_outcome w); apply (IH _ i it p Hi Hu); intros e;
        autorewrite with world; rewrite lookup_tail; apply Hf.
Qed.

(** An item that decodes is deleted, or the failure of its delete is in the
    lines the loop writes. *)
Lemma deletePlayers_logged items : ∀ w it p,
  it ∈ items → UnmarshalPlayer it = inr p →
  players (deletePlayers items w).2 !! PlayerId p = None
  ∨ ∃ e lines, log (deletePlayers items w).2 = (log w ++ lines)%list
               ∧ failed_delete_line (PlayerId p) e ∈ lines.
Proof.
  induction items as [|it0 items IH]; intros w it p Hin Hu.
  - by apply elem_of_nil in Hin.
  - apply elem_of_cons in Hin as [->|Hin].
    + rewrite deletePlayers_cons, Hu.
      destruct (head_outcome w) as [e|].
      * right. exists e.
        destruct (deletePlayers_log items
                    (log_Printf (failed_delete_line (PlayerId p) e) (pop w)).2)
          as (lines & Hl & _).
        exists (failed_delete_line (PlayerId p) e :: lines).
        rewrite Hl. autorewrite with world. rewrite <- app_assoc. split; [done|].
        apply elem_of_cons. by left.
      * left. apply deletePlayers_gone. autorewrite with world.
        apply lookup_delete_eq.
    + rewrite deletePlayers_cons.
      destruct (UnmarshalPlayer it0) as [err|p0]; [|destruct (head_outcome w)].
      all: match goal with |- context [deletePlayers _ ?w1] =>
             destruct (IH w1 it p Hin Hu) as [Hgone|(e & lines & Hl & Hel)] end.
      all: try (left; exact Hgone).
      all: right; exists e; rewrite Hl; autorewrite with world; rewrite <- app_assoc;
           eexists; split; [reflexivity|]; simpl; apply elem_of_cons; by right.
Qed.

(** The members the index gives are the stored items of that game. *)
Lemma elem_of_members_of gid w it :
  it ∈ members_of gid w
  ↔ (∃ k, players w !! k = Some it) ∧ it !! "gameId" = Some (AvS gid).
Proof.
  unfold members_of. rewrite list_elem_of_filter, list_elem_of_fmap.
  split.
  - intros (Hg & [k it'] & -> & Hin). apply elem_of_map_to_list in Hin. eauto.
  - intros ((k & Hk) & Hg). split; [done|]. exists (k, it). split; [done|].
    by apply elem_of_map_to_list.
Qed.

Lemma members_of_players gid w1 w2 :
  players w1 = players w2 → members_of gid w1 = members_of gid w2.
Proof. unfold members_of. by intros ->. Qed.

(** An owner's [DeleteGame], from the outcomes of the delete of the game and
    of the query. *)
Lemma DeleteGame_owner w req item game :
  games w !! reqGameId req = Some item →
  UnmarshalGame item = inr game →
  OwnerId game = reqPlayerId req →
  calm 1 (faults w) = true →
  DeleteGame req w
  = match head_outcome (pop w) with
    | Some e => (Some (wrapError "failed to delete game: " (AwsError e)), pop (pop w))
    | None =>
      let w2 := set_table gamesTableName (delete (reqGameId req) (games w)) (pop (pop w)) in
      let w3 := (log_Printf ("Deleted game: " ++ reqGameId req) w2).2 in
      match head_outcome w3 with
      | Some e =>
          (Some (wrapError "failed to query players by gameId: " (AwsError e)), pop w3)
      | None =>
          (None, (deletePlayers (members_of (reqGameId req) w) (pop w3)).2)
      end
    end.
Proof.
  intros Hg Hu Ho Hc.
  unfold DeleteGame, bind.
  rewrite (IsGameOwner_owner _ _ w item game Hc Hg Hu), Ho, String.eqb_refl.
  rewrite DeleteItem_games_eq.
  destruct (head_outcome (pop w)) as [e|]; [reflexivity|].
  rewrite games_pop. cbv zeta.
  remember (set_table gamesTableName (delete (reqGameId req) (games w)) (pop (pop w)))
    as w2 eqn:Hw2.
  destruct (log_Printf ("Deleted game: " ++ reqGameId req) w2) as [[] w3] eqn:E3.
  cbn [snd].
  assert (players w3 = players w) as Hp.
  { replace w3 with (log_Printf ("Deleted game: " ++ reqGameId req) w2).2
      by (by rewrite E3).
    subst w2. by autorewrite with world. }
  rewrite Query_members_eq.
  destruct (head_outcome w3) as [e|]; [reflexivity|].
  rewrite (members_of_players _ w3 w Hp).
  by destruct (deletePlayers _ _) as [[] w4].
Qed.

Lemma head_outcome_pop w : head_outcome (pop w) = default None (faults w !! 1).
Proof. by rewrite head_outcome_lookup, faults_pop, lookup_tail. Qed.

Lemma head_outcome_pop_pop w :
  head_outcome (pop (pop w)) = default None (faults w !! 2).
Proof. by rewrite head_outcome_pop, faults_pop, lookup_tail. Qed.

Lemma head_outcome_calm w : head_outcome w = None → calm 1 (faults w) = true.
Proof. rewrite head_outcome_lookup. by destruct (faults w) as [|[?|] ?]. Qed.

Lemma calm_lookup n fs i : calm n fs = true → i < n → default None (fs !! i) = None.
Proof.
  revert fs i. induction n as [|n IH]; intros fs i Hc Hi; [lia|].
  destruct fs as [|[e|] fs]; [done|done|].
  destruct i as [|i]; [done|]. simpl. apply IH; [done|lia].
Qed.

(** A successful [DeleteGame] went through the delete of the game and the
    query, and ended with the loop over the members. *)
Lemma DeleteGame_success_inv w req w' :
  DeleteGame req w = (None, w') →
  ∃ w3, games w3 = delete (reqGameId req) (games w)
        ∧ players w3 = players w
        ∧ log w3 = (log w ++ [("Deleted game: " ++ reqGameId req)%string])%list
        ∧ w' = (deletePlayers (members_of (reqGameId req) w) w3).2.
Proof.
  intros Hrun.
  assert (∃ item game, head_outcome w = None ∧ games w !! reqGameId req = Some item
                       ∧ UnmarshalGame item = inr game
                       ∧ OwnerId game = reqPlayerId req) as (item & game & Hh & Hg & Hu & Ho).
  { revert Hrun. unfold DeleteGame, bind. rewrite IsGameOwner_eq.
    destruct (head_outcome w); [discriminate|].
    destruct (games w !! reqGameId req) as [item|]; [|discriminate].
    destruct (UnmarshalGame item) as [err|game] eqn:Hu; [discriminate|].
    destruct (String.eqb (OwnerId game) (reqPlayerId req)) eqn:E; [|discriminate].
    intros _. exists item, game. apply String.eqb_eq in E. by repeat split. }
  rewrite (DeleteGame_owner w req item game Hg Hu Ho (head_outcome_calm w Hh)) in Hrun.
  destruct (head_outcome (pop w)); [discriminate|]. cbv zeta in Hrun.
  destruct (head_outcome _); [discriminate|].
  injection Hrun as <-.
  exists (pop (log_Printf ("Deleted game: " ++ reqGameId req)
                 (set_table gamesTableName (delete (reqGameId req) (games w))
                    (pop (pop w)))).2).
  split_and!; [by autorewrite with world..|reflexivity].
Qed.

End Cascade.

(** C10. When the owner calls [DeleteGame] and the store carries out the read
    and the delete of the game but fails the query on the players index,
    [DeleteGame] returns an error, the game is gone all the same and no
    player was deleted. *)
Theorem DeleteGame_query_failure (w : World) (req : GameRequest) (item : Item)
    (game : Game) (e : awserr) :
  games w !! reqGameId req = Some item →
  UnmarshalGame item = inr game →
  OwnerId game = reqPlayerId req →
  calm 2 (faults w) = true →
  faults w !! 2 = Some (Some e) →
  (DeleteGame req w).1
    = Some (wrapError "failed to query players by gameId: " (AwsError e))
  ∧ games (DeleteGame req w).2 = delete (reqGameId req) (games w)
  ∧ games (DeleteGame req w).2 !! reqGameId req = None
  ∧ players (DeleteGame req w).2 = players w.
Proof.
  intros Hg Hu Ho Hc He.
  assert (calm 1 (faults w) = true) as Hc1 by (by destruct (faults w) as [|[?|] ?]).
  rewrite (DeleteGame_owner w req item game Hg Hu Ho Hc1).
  rewrite head_outcome_pop, (calm_lookup 2 _ 1 Hc) by lia. cbv zeta.
  autorewrite with world. rewrite head_outcome_pop_pop, He. simpl.
  autorewrite with world.
  split; [done|]. split; [done|]. split; [apply lookup_delete_eq|done].
Qed.

Lemma DeleteGame_query_failure_witness :
  let w := two_games [None; None; Some RequestError] in
  let req := {| reqGameId := "S1"; reqPlayerId := "P1" |} in
  (∃ err, (DeleteGame req w).1 = Some err)
  ∧ games w !! "S1" = Some (MarshalGame settlers)
  ∧ games (DeleteGame req w).2 !! "S1" = None
  ∧ players (DeleteGame req w).2 = players w.
Proof.
  intros w req.
  destruct (DeleteGame_query_failure w req (MarshalGame settlers) settlers RequestError
              eq_refl eq_refl eq_refl eq_refl eq_refl) as (H1 & _ & H3 & H4).
  split; [eexists; exact H1|]. split; [reflexivity|]. split; assumption.
Defined.

(** C5. When the owner calls [DeleteGame] and the store carries out the read,
    the delete of the game and the query, then whatever the store answers to
    the deletes of the players: [DeleteGame] returns no error; the game stays
    deleted; the loop writes a line for every member the query gave; and
    every member that decodes is deleted if the store carried out the call
    made for it, whether or not the calls made for members before it
    failed. *)
Theorem DeleteGame_best_effort (w : World) (req : GameRequest) (item : Item)
    (game : Game) :
  games w !! reqGameId req = Some item →
  UnmarshalGame item = inr game →
  OwnerId game = reqPlayerId req →
  calm 3 (faults w) = true →
  let items := members_of (reqGameId req) w in
  (DeleteGame req w).1 = None
  ∧ games (DeleteGame req w).2 = delete (reqGameId req) (games w)
  ∧ (∃ lines, log (DeleteGame req w).2
              = (log w ++ ("Deleted game: " ++ reqGameId req)%string :: lines)%list
              ∧ length lines = length items)
  ∧ (∀ i it p, items !! i = Some it → UnmarshalPlayer it = inr p →
       (∀ e, faults w !! (3 + calls_before i items) ≠ Some (Some e)) →
       players (DeleteGame req w).2 !! PlayerId p = None).
Proof.
  intros Hg Hu Ho Hc items.
  assert (calm 1 (faults w) = true) as Hc1 by (by destruct (faults w) as [|[?|] ?]).
  rewrite (DeleteGame_owner w req item game Hg Hu Ho Hc1).
  rewrite head_outcome_pop, (calm_lookup 3 _ 1 Hc) by lia. cbv zeta.
  autorewrite with world.
  rewrite head_outcome_pop_pop, (calm_lookup 3 _ 2 Hc) by lia.
  cbn [fst snd]. fold items.
  split; [done|]. split; [|split].
  - rewrite deletePlayers_games. by autorewrite with world.
  - destruct (deletePlayers_log items
                (pop (log_Printf ("Deleted game: " ++ reqGameId req)
                   (set_table gamesTableName (delete (reqGameId req) (games w))
                      (pop (pop w)))).2)) as (lines & Hl & Hlen).
    exists lines. rewrite Hl. autorewrite with world.
    by rewrite <- app_assoc.
  - intros i it p Hi Hd Hf. apply (deletePlayers_attempt items _ i it p Hi Hd).
    intros e. autorewrite with world. rewrite !lookup_tail. apply Hf.
Qed.

(** The delete of [P1] fails, [P2] is deleted all the same and [DeleteGame]
    succeeds. *)
Lemma DeleteGame_best_effort_witness :
  let w := two_games [None; None; None; Some RequestError] in
  let req := {| reqGameId := "S1"; reqPlayerId := "P1" |} in
  members_of "S1" w = [MarshalPlayer ann; MarshalPlayer bob]
  ∧ (DeleteGame req w).1 = None
  ∧ games (DeleteGame req w).2 !! "S1" = None
  ∧ players (DeleteGame req w).2 !! "P1" = Some (MarshalPlayer ann)
  ∧ players (DeleteGame req w).2 !! "P2" = None.
Proof.
  intros w req.
  destruct (DeleteGame_best_effort w req (MarshalGame settlers) settlers
              eq_refl eq_refl eq_refl eq_refl) as (H1 & H2 & _ & H4).
  split; [reflexivity|]. split; [exact H1|]. split; [by rewrite H2|].
  split; [reflexivity|].
  apply (H4 1 (MarshalPlayer bob) bob eq_refl eq_refl). intros e. discriminate.
Defined.

(** What a [DeleteGame] that returned no error leaves, whatever the store
    answered to the deletes of the players: on a well-formed players table
    the game is gone, and every player the index gave for the game is gone
    unless its item does not decode or its delete failed and was logged; a
    query of the index that follows returns only such players. *)
Lemma DeleteGame_success_cascade (w w' : World) (req : GameRequest)
    (lines : list string) :
  wf_table playersTableName (players w) →
  DeleteGame req w = (None, w') →
  log w' = (log w ++ lines)%list →
  let kept (it : Item) : Prop :=
    decodes it = false
    ∨ ∃ p, UnmarshalPlayer it = inr p ∧ delete_failed (PlayerId p) lines in
  games w' !! reqGameId req = None
  ∧ (∀ k it, players w !! k = Some it → it ∈ members_of (reqGameId req) w →
       players w' !! k = None ∨ kept it)
  ∧ (∀ items,
       (Query playersTableName "gameIdIndex" ("gameId", reqGameId req) w').1 = inr items →
       (∀ it, it ∈ items → it ∈ members_of (reqGameId req) w ∧ kept it)
       ∧ ((∀ it, it ∈ members_of (reqGameId req) w → ¬ kept it) → items = [])).
Proof.
  intros Hwf Hrun Hlog kept.
  destruct (DeleteGame_success_inv w req w' Hrun) as (w3 & Hg3 & Hp3 & Hl3 & ->).
  assert (∀ k it, players w !! k = Some it → it ∈ members_of (reqGameId req) w →
                  players (deletePlayers (members_of (reqGameId req) w) w3).2 !! k = None
                  ∨ kept it) as Hcascade.
  { intros k it Hk Hin.
    destruct (UnmarshalPlayer it) as [err|p] eqn:Hu.
    - right. left. unfold decodes. by rewrite Hu.
    - assert (PlayerId p = k) as <- by (by eapply UnmarshalPlayer_key).
      destruct (deletePlayers_logged _ w3 it p Hin Hu) as [Hgone|(e & ls & Hls & Hel)];
        [by left|].
      right. right. exists p. split; [done|]. exists e.
      rewrite Hls, Hl3, <- app_assoc in Hlog. apply app_inv_head in Hlog as <-.
      apply elem_of_cons. by right. }
  split; [|split].
  - rewrite deletePlayers_games, Hg3. apply lookup_delete_eq.
  - exact Hcascade.
  - intros items. rewrite Query_members_eq.
    destruct (head_outcome _); [discriminate|]. intros [= <-].
    assert (∀ it, it ∈ members_of (reqGameId req)
                         (deletePlayers (members_of (reqGameId req) w) w3).2 →
                  it ∈ members_of (reqGameId req) w ∧ kept it) as Hleft.
    { intros it Hin. apply elem_of_members_of in Hin as ((k & Hk) & Hgid).
      assert (players w !! k = Some it) as Hk0
        by (rewrite <- Hp3; by eapply deletePlayers_subset).
      assert (it ∈ members_of (reqGameId req) w) as Hin0
        by (apply elem_of_members_of; eauto).
      split; [done|]. destruct (Hcascade k it Hk0 Hin0) as [Hgone|Hkept]; [|done].
      congruence. }
    split; [exact Hleft|]. intros Hnone.
    apply elem_of_nil_inv. intros it Hin.
    destruct (Hleft it Hin) as [Hin0 Hkept]. by destruct (Hnone it Hin0).
Qed.

Section CascadeComplete.

Implicit Types (w : World) (items : list Item).

Lemma calm_all_tail (fs : list (option awserr)) :
  (∀ n, calm n fs = true) → ∀ n, calm n (tail fs) = true.
Proof.
  intros H n. specialize (H (S n)).
  destruct fs as [|[e|] fs]; simpl in *; [by destruct n|discriminate|done].
Qed.

(** When the store carries out every call, it still does after the loop. *)
Lemma deletePlayers_calm items : ∀ w,
  (∀ n, calm n (faults w) = true) →
  ∀ n, calm n (faults (deletePlayers items w).2) = true.
Proof.
  induction items as [|it items IH]; intros w Hq; [done|].
  rewrite deletePlayers_cons.
  destruct (UnmarshalPlayer it) as [err|p]; [|destruct (head_outcome w)];
    apply IH; intros n; autorewrite with world;
    first [apply Hq | by apply calm_all_tail].
Qed.

Lemma DeleteGame_success_calm w (req : GameRequest) w' :
  (∀ n, calm n (faults w) = true) →
  DeleteGame req w = (None, w') →
  ∃ w3, games w3 = delete (reqGameId req) (games w)
        ∧ players w3 = players w
        ∧ (∀ n, calm n (faults w3) = true)
        ∧ w' = (deletePlayers (members_of (reqGameId req) w) w3).2.
Proof.
  intros Hq Hrun.
  assert (∃ item game, head_outcome w = None ∧ games w !! reqGameId req = Some item
                       ∧ UnmarshalGame item = inr game
                       ∧ OwnerId game = reqPlayerId req) as (item & game & Hh & Hg & Hu & Ho).
  { revert Hrun. unfold DeleteGame, bind. rewrite IsGameOwner_eq.
    destruct (head_outcome w); [discriminate|].
    destruct (games w !! reqGameId req) as [item|]; [|discriminate].
    destruct (UnmarshalGame item) as [err|game] eqn:Hu; [discriminate|].
    destruct (String.eqb (OwnerId game) (reqPlayerId req)) eqn:E; [|discriminate].
    intros _. exists item, game. apply String.eqb_eq in E. by repeat split. }
  rewrite (DeleteGame_owner w req item game Hg Hu Ho (head_outcome_calm w Hh)) in Hrun.
  destruct (head_outcome (pop w)); [discriminate|]. cbv zeta in Hrun.
  match type of Hrun with
  | context [head_outcome ?x] => destruct (head_outcome x); [discriminate|]
  end.
  injection Hrun as <-. eexists. split_and!; [| | |reflexivity].
  - by autorewrite with world.
  - by autorewrite with world.
  - intros n. autorewrite with world. by do 3 apply calm_all_tail.
Qed.

End CascadeComplete.

(** C3. After a [DeleteGame] that returned no error, with no failure of the
    store, every member of the game decoding and the players table
    well-formed: the game is gone, every player that the query on the index
    returned for the game is gone, and a query of the index for that game
    that follows returns no item. *)
Theorem DeleteGame_cascade_complete (w w' : World) (req : GameRequest) :
  wf_table playersTableName (players w) →
  (∀ n, calm n (faults w) = true) →
  (∀ it, it ∈ members_of (reqGameId req) w → decodes it = true) →
  DeleteGame req w = (None, w') →
  games w' !! reqGameId req = None
  ∧ (∀ k it, players w !! k = Some it → it ∈ members_of (reqGameId req) w →
             players w' !! k = None)
  ∧ (Query playersTableName "gameIdIndex" ("gameId", reqGameId req) w').1 = inr [].
Proof.
  intros Hwf Hq Hdec Hrun.
  destruct (DeleteGame_success_calm w req w' Hq Hrun) as (w3 & Hg3 & Hp3 & Hq3 & ->).
  assert (∀ k it, players w !! k = Some it → it ∈ members_of (reqGameId req) w →
                  players (deletePlayers (members_of (reqGameId req) w) w3).2 !! k = None)
    as Hgone.
  { intros k it Hk Hin. specialize (Hdec it Hin). unfold decodes in Hdec.
    destruct (UnmarshalPlayer it) as [err|p] eqn:Hu; [discriminate|].
    rewrite <- (UnmarshalPlayer_key _ k it p Hwf Hk Hu).
    apply list_elem_of_lookup in Hin as [i Hi].
    apply (deletePlayers_attempt _ w3 i it p Hi Hu). intros e He.
    pose proof (calm_lookup (S (calls_before i (members_of (reqGameId req) w)))
                  (faults w3) (calls_before i (members_of (reqGameId req) w))
                  (Hq3 _) ltac:(lia)) as Hnone.
    rewrite He in Hnone. discriminate. }
  split_and!.
  - rewrite deletePlayers_games, Hg3. apply lookup_delete_eq.
  - exact Hgone.
  - rewrite Query_members_eq, head_outcome_lookup.
    rewrite (calm_lookup 1 _ 0) by (by apply deletePlayers_calm || lia).
    cbn [fst]. f_equal. apply elem_of_nil_inv. intros it Hin.
    apply elem_of_members_of in Hin as ((k & Hk) & Hgid).
    assert (players w !! k = Some it) as Hk0
      by (rewrite <- Hp3; by eapply deletePlayers_subset).
    rewrite (Hgone k it Hk0) in Hk; [discriminate|].
    apply elem_of_members_of. eauto.
Qed.

(** [P1] deletes [S1]: the game and its members [P1] and [P2] are gone, and
    the index has no player of [S1] left. *)
Lemma DeleteGame_cascade_complete_witness :
  let w := two_games [] in
  let req := {| reqGameId := "S1"; reqPlayerId := "P1" |} in
  members_of "S1" w = [MarshalPlayer ann; MarshalPlayer bob]
  ∧ games (DeleteGame req w).2 !! "S1" = None
  ∧ players (DeleteGame req w).2 !! "P1" = None
  ∧ players (DeleteGame req w).2 !! "P2" = None
  ∧ (Query playersTableName "gameIdIndex" ("gameId", "S1") (DeleteGame req w).2).1
    = inr [].
Proof.
  intros w req.
  assert (members_of "S1" w = [MarshalPlayer ann; MarshalPlayer bob]) as Hm by reflexivity.
  destruct (DeleteGame_cascade_complete w (DeleteGame req w).2 req) as (H1 & H2 & H3).
  - apply (bool_decide_unpack _). vm_compute. exact I.
  - intros n. by destruct n.
  - intros it Hin. cbn [reqGameId req] in Hin. rewrite Hm in Hin.
    repeat (apply elem_of_cons in Hin as [->|Hin]; [reflexivity|]).
    by apply elem_of_nil in Hin.
  - reflexivity.
  - split; [exact Hm|]. split; [exact H1|]. split; [|split; [|exact H3]].
    + apply (H2 "P1" (MarshalPlayer ann)); [reflexivity|].
      cbn [reqGameId req]. rewrite Hm. apply list_elem_of_here.
    + apply (H2 "P2" (MarshalPlayer bob)); [reflexivity|].
      cbn [reqGameId req]. rewrite Hm. apply list_elem_of_further, list_elem_of_here.
Defined.

(** ** CreateGameAndPlayer *)

Section Create.

Variables (w : World) (r : CreateGameRequest).

Let gid := reqGameId (cGameRequest r).
Let pid := reqPlayerId (cGameRequest r).

Lemma CreateGameAndPlayer_eq :
  CreateGameAndPlayer r w
  = match head_outcome w with
    | Some e => (Some (wrapError "transaction failed: " (AwsError e)), pop w)
    | None =>
      if condition_holds (attribute_not_exists "gameId") (games w !! gid)
         && condition_holds (attribute_not_exists "playerId") (players w !! pid)
      then
        (None,
         (fmt_Printf ("Successfully created game and player." ++ nl)
            (set_table playersTableName
               (<[pid := MarshalPlayer (playerItem_of r)]> (players w))
               (set_table gamesTableName
                  (<[gid := MarshalGame (gameItem_of r)]> (games w)) (pop w)))).2)
      else
        (Some (wrapError "transaction failed: " (AwsError TransactionCanceledException)),
         pop w)
    end.
Proof.
  unfold CreateGameAndPlayer, TransactWriteItems, bind.
  rewrite next_outcome_eq.
  destruct (head_outcome w) as [e|]; [reflexivity|].
  unfold forallb, put_valid, put_allowed.
  cbn [PutTableName PutItem_ PutCondition].
  rewrite !key_of_MarshalGame, !key_of_MarshalPlayer.
  cbn [GameId PlayerId table negb andb].
  rewrite games_pop, players_pop. fold gid pid.
  rewrite andb_true_r.
  destruct (condition_holds _ (games w !! gid) && condition_holds _ (players w !! pid));
    [|reflexivity].
  unfold foldl, put_apply. cbn [PutTableName PutItem_].
  rewrite !key_of_MarshalGame, !key_of_MarshalPlayer.
  cbn [GameId PlayerId table]. rewrite players_set_table, games_pop, players_pop.
  reflexivity.
Qed.

End Create.

(** C1. [CreateGameAndPlayer] creates both records or none.  When it returns
    no error, the game is stored under the [GameId] of the request, with its
    name, not started and owned by the [PlayerId] of the request, and the
    owner is stored under that [PlayerId], nothing else changing in either
    table; when it returns an error, both tables are as they were.  On
    well-formed tables, when a game is stored under that [GameId] or a player
    under that [PlayerId] and the store carries out the call, it fails with
    the transaction cancelled, which [handleCreateGame] answers with 409. *)
Theorem CreateGameAndPlayer_atomic (w : World) (r : CreateGameRequest) :
  let gid := reqGameId (cGameRequest r) in
  let pid := reqPlayerId (cGameRequest r) in
  let run := CreateGameAndPlayer r w in
  (run.1 = None →
     games run.2 = <[gid := MarshalGame (gameItem_of r)]> (games w)
     ∧ players run.2 = <[pid := MarshalPlayer (playerItem_of r)]> (players w)
     ∧ (∃ item, games run.2 !! gid = Some item
                ∧ UnmarshalGame item = inr (gameItem_of r))
     ∧ (∃ item, players run.2 !! pid = Some item
                ∧ UnmarshalPlayer item = inr (playerItem_of r)))
  ∧ (∀ err, run.1 = Some err → games run.2 = games w ∧ players run.2 = players w)
  ∧ (wf_table gamesTableName (games w) → wf_table playersTableName (players w) →
     calm 1 (faults w) = true →
     is_Some (games w !! gid) ∨ is_Some (players w !! pid) →
     run.1 = Some (wrapError "transaction failed: " (AwsError TransactionCanceledException))
     ∧ StatusCode (handleCreateGame (Some r) w).1 = 409%Z).
Proof.
  intros gid pid run. subst run.
  unfold handleCreateGame, bind. rewrite CreateGameAndPlayer_eq. fold gid pid.
  destruct (head_outcome w) as [e|] eqn:Hh.
  { cbn [fst snd]. split; [discriminate|].
    split; [intros _ _; by autorewrite with world|].
    intros _ _ Hc. rewrite (calm_head 0 w Hc) in Hh. discriminate. }
  destruct (condition_holds _ (games w !! gid) && condition_holds _ (players w !! pid))
    eqn:Hcond.
  - split; [intros _|split; [discriminate|]].
    + cbn [snd fst fmt_Printf games players].
      rewrite games_set_table, players_set_table, games_set_table.
      split; [done|]. split; [done|]. split.
      * eexists. split; [apply lookup_insert_eq|apply UnmarshalGame_MarshalGame].
      * eexists. split; [apply lookup_insert_eq|apply UnmarshalPlayer_MarshalPlayer].
    + intros Hwg Hwp _ Hex. exfalso.
      apply andb_true_iff in Hcond as [Hcg Hcp].
      destruct Hex as [[it Hit]|[it Hit]].
      * rewrite Hit in Hcg. simpl in Hcg. apply bool_decide_eq_true in Hcg.
        specialize (Hwg gid it Hit). simpl in Hwg. congruence.
      * rewrite Hit in Hcp. simpl in Hcp. apply bool_decide_eq_true in Hcp.
        specialize (Hwp pid it Hit). simpl in Hwp. congruence.
  - cbn [fst snd]. split; [discriminate|].
    split; [intros _ _; by autorewrite with world|].
    intros _ _ _ _. split; reflexivity.
Qed.

(** A fresh pair is created; a second call with the same ids, and a call
    with a new game for a stored player, are refused and change nothing. *)
Lemma CreateGameAndPlayer_atomic_witness :
  let fresh := {| cGameName := "Chess"; cPlayerName := "Dan";
                  cGameRequest := {| reqGameId := "S3"; reqPlayerId := "P4" |} |} in
  let taken := {| cGameName := "Go"; cPlayerName := "Bob";
                  cGameRequest := {| reqGameId := "S4"; reqPlayerId := "P2" |} |} in
  let w := two_games [] in
  (games (CreateGameAndPlayer fresh w).2 !! "S3" = Some (MarshalGame (gameItem_of fresh))
   ∧ players (CreateGameAndPlayer fresh w).2 !! "P4"
     = Some (MarshalPlayer (playerItem_of fresh)))
  ∧ ((CreateGameAndPlayer taken w).1
     = Some (wrapError "transaction failed: " (AwsError TransactionCanceledException))
     ∧ games (CreateGameAndPlayer taken w).2 = games w
     ∧ players (CreateGameAndPlayer taken w).2 = players w).
Proof.
  intros fresh taken w. split.
  - destruct (CreateGameAndPlayer_atomic w fresh) as (Hok & _).
    destruct (Hok eq_refl) as (Hg & Hp & _).
    rewrite Hg, Hp. split; reflexivity.
  - destruct (CreateGameAndPlayer_atomic w taken) as (_ & Herr & Hconflict).
    destruct Hconflict as [H _].
    + apply (bool_decide_unpack _). vm_compute. exact I.
    + apply (bool_decide_unpack _). vm_compute. exact I.
    + reflexivity.
    + right. by exists (MarshalPlayer bob).
    + split; [exact H|]. exact (Herr _ H).
Defined.

(** ** handleJoinGame *)

(** C4, on the code.  [S1] is stored and the store fails the read of the game
    in [JoinGame]: [JoinGame] returns the error of a failed read, not the one
    of a missing game, and [handleJoinGame] answers 404, as for a missing
    game, where a failure of the write in [CreatePlayer] is answered 500. *)
Lemma handleJoinGame_store_failure_is_404 :
  let join := {| jGameRequest := {| reqGameId := "S1"; reqPlayerId := "P4" |};
                 jPlayerName := "Dan" |} in
  is_Some (games (two_games [Some RequestError]) !! "S1")
  ∧ (JoinGame join (two_games [Some RequestError])).1
    = Some (wrapError "failed to query DynamoDB: " (AwsError RequestError))
  ∧ (handleJoinGame (Some join) (two_games [Some RequestError])).1
    = {| StatusCode := 404;
         Body := "Game not found: failed to query DynamoDB: RequestError: send request failed";
         Headers := [] |}
  ∧ StatusCode (handleJoinGame (Some join) (two_games [None; Some RequestError])).1
    = 500%Z
  ∧ StatusCode (handleJoinGame (Some join) (two_games [])).1 = 200%Z.
Proof.
  intros join. split; [by eexists|]. repeat split; reflexivity.
Qed.

(** ** Further properties of the coordinator *)

Section Readers.

Implicit Types (w : World).

Lemma JoinGame_eq (r : JoinGameRequest) w :
  JoinGame r w
  = (match head_outcome w with
     | Some e => Some (wrapError "failed to query DynamoDB: " (AwsError e))
     | None =>
       match games w !! reqGameId (jGameRequest r) with
       | None => Some (errorString ("game " ++ reqGameId (jGameRequest r) ++ " not found"))
       | Some _ => None
       end
     end, pop w).
Proof.
  unfold JoinGame, bind. rewrite GetItem_games_eq.
  destruct (head_outcome w); [done|].
  by destruct (games w !! reqGameId (jGameRequest r)).
Qed.

Lemma GameState_eq (r : GameRequest) w :
  GameState r w
  = (match head_outcome w with
     | Some e => Err (wrapError "failed to get game: " (AwsError e))
     | None =>
       match games w !! reqGameId r with
       | None => Err (errorString ("game with ID " ++ reqGameId r ++ " not found"))
       | Some item =>
         match UnmarshalGame item with
         | inl e => Err (wrapError "failed to unmarshal game: " (AwsError e))
         | inr game => Ok (HasGameStarted game)
         end
       end
     end, pop w).
Proof.
  unfold GameState, bind. rewrite GetItem_games_eq.
  destruct (head_outcome w); [done|].
  destruct (games w !! reqGameId r) as [item|]; [|done].
  by destruct (UnmarshalGame item).
Qed.

Lemma CreatePlayer_eq (r : JoinGameRequest) w :
  let pid := reqPlayerId (jGameRequest r) in
  let player := {| PlayerId := pid; PlayerName := jPlayerName r;
                   PlayerGameId := reqGameId (jGameRequest r) |} in
  CreatePlayer r w
  = match head_outcome w with
    | Some e =>
        (Some (wrapError "failed to put item into DynamoDB: " (AwsError e)), pop w)
    | None =>
      if condition_holds (attribute_not_exists "playerId") (players w !! pid) then
        (None,
         (fmt_Printf ("Successfully wrote player with ID: " ++ pid ++ nl)
            (set_table playersTableName (<[pid := MarshalPlayer player]> (players w))
               (pop w))).2)
      else
        (Some (wrapError "failed to put item into DynamoDB: "
                 (AwsError ConditionalCheckFailedException)), pop w)
    end.
Proof.
  intros pid player. unfold CreatePlayer, PutItem, bind.
  rewrite next_outcome_eq.
  destruct (head_outcome w) as [e|]; [reflexivity|].
  unfold put_valid, put_allowed, put_apply. cbn [PutTableName PutItem_ PutCondition].
  rewrite !key_of_MarshalPlayer. cbn [PlayerId table negb].
  rewrite players_pop. fold pid.
  by destruct (condition_holds _ (players w !! pid)).
Qed.

(** On a well-formed table the condition [attribute_not_exists] of the key
    attribute holds exactly when nothing is stored under the key. *)
Lemma condition_holds_wf t (m : gmap string Item) k :
  wf_table t m →
  condition_holds (attribute_not_exists (KeySchema t)) (m !! k)
  = bool_decide (m !! k = None).
Proof.
  intros Hwf. destruct (m !! k) as [it|] eqn:E; [|done].
  specialize (Hwf k it E). cbn beta in Hwf. cbn [condition_holds].
  transitivity false; [|symmetry]; apply bool_decide_eq_false_2; congruence.
Qed.

End Readers.

(** X1. [JoinGame] only reads: it changes neither table.  When the store
    carries out the read it returns no error exactly when an item is stored
    under the [GameId] of the request, whether or not that item decodes to a
    game, and the not-found error otherwise; when the store fails the read it
    returns the error of the store, wrapped. *)
Theorem JoinGame_checks_existence_only (w : World) (r : JoinGameRequest) :
  let gid := reqGameId (jGameRequest r) in
  games (JoinGame r w).2 = games w
  ∧ players (JoinGame r w).2 = players w
  ∧ (calm 1 (faults w) = true →
     ((JoinGame r w).1 = None ↔ is_Some (games w !! gid))
     ∧ (games w !! gid = None →
        (JoinGame r w).1 = Some (errorString ("game " ++ gid ++ " not found"))))
  ∧ (∀ e, faults w !! 0 = Some (Some e) →
     (JoinGame r w).1 = Some (wrapError "failed to query DynamoDB: " (AwsError e))).
Proof.
  intros gid. rewrite JoinGame_eq. fold gid. cbn [fst snd].
  rewrite games_pop, players_pop. split_and!; try done.
  - intros Hc. rewrite (calm_head 0 w Hc).
    destruct (games w !! gid) as [it|].
    + split; [split; [by eexists|done]|discriminate].
    + split; [split; [discriminate|by intros [? ?]]|done].
  - intros e He. rewrite head_outcome_lookup, He. done.
Qed.

(** An item that does not decode to a game passes [JoinGame]. *)
Lemma JoinGame_checks_existence_only_witness :
  let w := {| games := {[ "S7" := {[ "gameId" := AvS "S7"; "ownerId" := AvBOOL true ]} ]};
              players := ∅; faults := []; log := []; stdout := [] |} in
  let r := {| jGameRequest := {| reqGameId := "S7"; reqPlayerId := "P1" |};
              jPlayerName := "Ann" |} in
  (∃ e, UnmarshalGame {[ "gameId" := AvS "S7"; "ownerId" := AvBOOL true ]} = inl e)
  ∧ (JoinGame r w).1 = None
  ∧ (JoinGame r (two_games [])).1 = Some (errorString "game S7 not found").
Proof.
  intros w r. split; [by eexists|].
  destruct (JoinGame_checks_existence_only w r) as (_ & _ & H & _).
  destruct (H eq_refl) as [Hiff _].
  destruct (JoinGame_checks_existence_only (two_games []) r) as (_ & _ & H' & _).
  destruct (H' eq_refl) as [_ Hnf].
  split; [apply Hiff; by eexists | exact (Hnf eq_refl)].
Defined.

(** X2. [CreatePlayer] writes the player of the request under its
    [PlayerId] if no player is stored there, and never reads or changes the
    games table: it creates a player also for a game that is not stored.  On
    an error the players table is as it was; on a well-formed players table,
    the store carrying out the write, it succeeds exactly when no player is
    stored under the id and otherwise fails with the failed conditional
    check. *)
Theorem CreatePlayer_spec (w : World) (r : JoinGameRequest) :
  let pid := reqPlayerId (jGameRequest r) in
  let player := {| PlayerId := pid; PlayerName := jPlayerName r;
                   PlayerGameId := reqGameId (jGameRequest r) |} in
  let run := CreatePlayer r w in
  games run.2 = games w
  ∧ (run.1 = None →
     players run.2 = <[pid := MarshalPlayer player]> (players w)
     ∧ ∃ item, players run.2 !! pid = Some item ∧ UnmarshalPlayer item = inr player)
  ∧ (∀ err, run.1 = Some err → players run.2 = players w)
  ∧ (wf_table playersTableName (players w) → calm 1 (faults w) = true →
     (run.1 = None ↔ players w !! pid = None)
     ∧ (is_Some (players w !! pid) →
        run.1 = Some (wrapError "failed to put item into DynamoDB: "
                        (AwsError ConditionalCheckFailedException)))).
Proof.
  intros pid player run. subst run. rewrite CreatePlayer_eq. fold pid player.
  destruct (head_outcome w) as [e|] eqn:Hh; cbn [fst snd].
  { rewrite games_pop, players_pop. split_and!; try done.
    intros _ Hc. rewrite (calm_head 0 w Hc) in Hh. discriminate. }
  destruct (condition_holds _ (players w !! pid)) eqn:Hcond; cbn [fst snd].
  - autorewrite with world. cbn [fmt_Printf snd games players].
    rewrite games_set_table, players_set_table, games_pop.
    split_and!; try done.
    + intros _. split; [done|]. eexists.
      split; [apply lookup_insert_eq|apply UnmarshalPlayer_MarshalPlayer].
    + intros Hwf _.
      pose proof (condition_holds_wf playersTableName _ pid Hwf) as Hch.
    cbn [KeySchema] in Hch. rewrite Hch in Hcond.
      apply bool_decide_eq_true in Hcond. split; [done|].
      intros [it Hit]. congruence.
  - rewrite games_pop, players_pop. split_and!; try done.
    intros Hwf _.
    pose proof (condition_holds_wf playersTableName _ pid Hwf) as Hch.
    cbn [KeySchema] in Hch. rewrite Hch in Hcond.
    apply bool_decide_eq_false in Hcond. split; [|done].
    split; [discriminate|done].
Qed.

(** [P4] is created for [S9], which is not stored; [P2] is stored. *)
Lemma CreatePlayer_spec_witness :
  let orphan := {| jGameRequest := {| reqGameId := "S9"; reqPlayerId := "P4" |};
                   jPlayerName := "Dan" |} in
  let again := {| jGameRequest := {| reqGameId := "S2"; reqPlayerId := "P2" |};
                  jPlayerName := "Bob" |} in
  games (two_games []) !! "S9" = None
  ∧ (CreatePlayer orphan (two_games [])).1 = None
  ∧ (CreatePlayer again (two_games [])).1
    = Some (wrapError "failed to put item into DynamoDB: "
              (AwsError ConditionalCheckFailedException))
  ∧ players (CreatePlayer again (two_games [])).2 = players (two_games []).
Proof.
  intros orphan again. split; [reflexivity|].
  destruct (CreatePlayer_spec (two_games []) orphan) as (_ & _ & _ & H1).
  destruct (CreatePlayer_spec (two_games []) again) as (_ & _ & Hsame & H2).
  assert (wf_table playersTableName (players (two_games []))) as Hwf
    by (apply (bool_decide_unpack _); vm_compute; exact I).
  destruct (H1 Hwf eq_refl) as [Hiff _]. destruct (H2 Hwf eq_refl) as [_ Hconf].
  split; [by apply Hiff|].
  assert (Hc := Hconf ltac:(by eexists)).
  split; [exact Hc | exact (Hsame _ Hc)].
Defined.

(** X3. [GameState] only reads: it changes neither table.  When the store
    carries out the read it fails with the not-found error if no game is
    stored under the [GameId] of the request, and otherwise returns the
    [HasGameStarted] of the stored game; the [PlayerId] of the request plays
    no part. *)
Theorem GameState_spec (w : World) (r : GameRequest) :
  games (GameState r w).2 = games w
  ∧ players (GameState r w).2 = players w
  ∧ (calm 1 (faults w) = true →
     match games w !! reqGameId r with
     | None =>
         (GameState r w).1
         = Err (errorString ("game with ID " ++ reqGameId r ++ " not found"))
     | Some item =>
         ∀ game, UnmarshalGame item = inr game →
           ∀ anyone, (GameState {| reqGameId := reqGameId r; reqPlayerId := anyone |} w).1
                     = Ok (HasGameStarted game)
     end).
Proof.
  rewrite GameState_eq. cbn [fst snd]. rewrite games_pop, players_pop.
  split_and!; try done. intros Hc. rewrite (calm_head 0 w Hc).
  destruct (games w !! reqGameId r) as [item|] eqn:E; [|done].
  intros game Hu anyone. rewrite GameState_eq. cbn [fst reqGameId].
  by rewrite (calm_head 0 w Hc), E, Hu.
Qed.

Lemma GameState_spec_witness :
  (GameState {| reqGameId := "S2"; reqPlayerId := "nobody" |} (two_games [])).1 = Ok true
  ∧ (GameState {| reqGameId := "S1"; reqPlayerId := "P2" |} (two_games [])).1 = Ok false
  ∧ (GameState {| reqGameId := "S9"; reqPlayerId := "P1" |} (two_games [])).1
    = Err (errorString "game with ID S9 not found").
Proof.
  destruct (GameState_spec (two_games []) {| reqGameId := "S2"; reqPlayerId := "P3" |})
    as (_ & _ & H2).
  destruct (GameState_spec (two_games []) {| reqGameId := "S1"; reqPlayerId := "P1" |})
    as (_ & _ & H1).
  destruct (GameState_spec (two_games []) {| reqGameId := "S9"; reqPlayerId := "P1" |})
    as (_ & _ & H9).
  split; [exact (H2 eq_refl risk eq_refl "nobody")|].
  split; [exact (H1 eq_refl settlers eq_refl "P2")|exact (H9 eq_refl)].
Defined.

Section Lifecycle.

Implicit Types (w : World).

Lemma CreateGameAndPlayer_success w (r : CreateGameRequest) :
  (CreateGameAndPlayer r w).1 = None →
  games (CreateGameAndPlayer r w).2
    = <[reqGameId (cGameRequest r) := MarshalGame (gameItem_of r)]> (games w)
  ∧ players (CreateGameAndPlayer r w).2
    = <[reqPlayerId (cGameRequest r) := MarshalPlayer (playerItem_of r)]> (players w).
Proof.
  rewrite CreateGameAndPlayer_eq.
  destruct (head_outcome w); [discriminate|].
  destruct (_ && _); [|discriminate]. intros _.
  cbn [snd fst fmt_Printf games players].
  by rewrite games_set_table, players_set_table, games_set_table.
Qed.

(** [StartGame] and [EndGame] in any world, from the outcomes of their two
    store calls. *)
Lemma set_started_eq w (r : GameRequest) (state : bool) :
  (if state then StartGame r else EndGame r) w
  = match (IsGameOwner (reqGameId r) (reqPlayerId r) w).1 with
    | Err err => (Some err, pop w)
    | Ok false =>
        (Some (errorString ("unauthorized: only the game owner can "
                            ++ (if state then "start" else "end") ++ " this game")),
         pop w)
    | Ok true =>
        match head_outcome (pop w) with
        | Some e =>
            (Some (wrapError "failed to update game state: " (AwsError e)), pop (pop w))
        | None =>
            (None,
             set_table gamesTableName
               (<[reqGameId r :=
                    <["hasGameStarted" := AvBOOL state]>
                      (default {[ "gameId" := AvS (reqGameId r) ]}
                               (games w !! reqGameId r))]> (games w))
               (pop (pop w)))
        end
    end.
Proof.
  destruct state; unfold StartGame, EndGame, bind; rewrite IsGameOwner_eq; cbn [fst].
  all: destruct (match head_outcome w with Some _ => _ | None => _ end) as [[|]|err];
    try reflexivity.
  all: unfold SetGameState, UpdateItem_SET, bind; rewrite next_outcome_eq.
  all: destruct (head_outcome (pop w)); [reflexivity|].
  all: cbn [key_valid fst snd KeySchema String.eqb Ascii.eqb Bool.eqb negb table].
  all: by rewrite !games_pop.
Qed.

Lemma IsGameOwner_true_stored w gid pid :
  (IsGameOwner gid pid w).1 = Ok true →
  ∃ item game, games w !! gid = Some item ∧ UnmarshalGame item = inr game
               ∧ OwnerId game = pid ∧ head_outcome w = None.
Proof.
  rewrite IsGameOwner_eq. cbn [fst].
  destruct (head_outcome w); [discriminate|].
  destruct (games w !! gid) as [item|]; [|discriminate].
  destruct (UnmarshalGame item) as [e|game] eqn:Hu; [discriminate|].
  intros [= Heq]. apply String.eqb_eq in Heq. by exists item, game.
Qed.

Lemma set_started_frame w (r : GameRequest) (state : bool) :
  let run := (if state then StartGame r else EndGame r) w in
  players run.2 = players w
  ∧ dom (games run.2) = dom (games w)
  ∧ (∀ k, k ≠ reqGameId r → games run.2 !! k = games w !! k)
  ∧ (∀ err, run.1 = Some err → games run.2 = games w).
Proof.
  cbv zeta. rewrite set_started_eq.
  destruct ((IsGameOwner (reqGameId r) (reqPlayerId r) w).1) as [[|]|err] eqn:Hown;
    cbn [fst snd]; try (by rewrite games_pop, players_pop).
  destruct (head_outcome (pop w)); cbn [fst snd];
    [by rewrite !games_pop, !players_pop|].
  apply IsGameOwner_true_stored in Hown as (item & game & Hg & _).
  rewrite games_set_table, players_set_table, !players_pop.
  split_and!; try done.
  - apply dom_insert_lookup_L. by eexists.
  - intros k Hk. by rewrite lookup_insert_ne.
Qed.

(** The two outcomes of [DeleteGame] as to the tables: nothing changed, or
    the game was deleted and either the players are as they were or the loop
    over the members ran. *)
Lemma DeleteGame_shape w (r : GameRequest) :
  let w' := (DeleteGame r w).2 in
  (games w' = games w ∧ players w' = players w)
  ∨ (games w' = delete (reqGameId r) (games w)
     ∧ (players w' = players w
        ∨ ∃ w3, players w3 = players w
                ∧ players w' = players (deletePlayers (members_of (reqGameId r) w) w3).2)).
Proof.
  cbv zeta.
  destruct ((IsGameOwner (reqGameId r) (reqPlayerId r) w).1) as [[|]|err] eqn:Hown.
  - apply IsGameOwner_true_stored in Hown as (item & game & Hg & Hu & Ho & Hh).
    rewrite (DeleteGame_owner w r item game Hg Hu Ho (head_outcome_calm w Hh)).
    destruct (head_outcome (pop w)); cbn [snd].
    { left. by rewrite !games_pop, !players_pop. }
    cbv zeta.
    match goal with |- context [head_outcome ?x] => destruct (head_outcome x) end;
      cbn [snd]; right.
    + autorewrite with world. split; [done|]. by left.
    + rewrite deletePlayers_games. autorewrite with world. split; [done|].
      right. eexists. split; [|reflexivity]. by autorewrite with world.
  - left. unfold DeleteGame, bind. revert Hown.
    destruct (IsGameOwner _ _ w) as [res w1] eqn:E. cbn [fst]. intros ->.
    assert (w1 = pop w) as -> by (rewrite IsGameOwner_eq in E; congruence).
    cbn [snd ret]. by rewrite games_pop, players_pop.
  - left. unfold DeleteGame, bind. revert Hown.
    destruct (IsGameOwner _ _ w) as [res w1] eqn:E. cbn [fst]. intros ->.
    assert (w1 = pop w) as -> by (rewrite IsGameOwner_eq in E; congruence).
    cbn [snd ret]. by rewrite games_pop, players_pop.
Qed.

(** The loop deletes only under the ids its items decode to. *)
Lemma deletePlayers_other items : ∀ w k,
  (∀ it p, it ∈ items → UnmarshalPlayer it = inr p → PlayerId p ≠ k) →
  players (deletePlayers items w).2 !! k = players w !! k.
Proof.
  induction items as [|it items IH]; intros w k Hk; [done|].
  rewrite deletePlayers_cons.
  assert (∀ it0 p, it0 ∈ items → UnmarshalPlayer it0 = inr p → PlayerId p ≠ k) as Hk'
    by (intros it0 p Hin; apply Hk; by right).
  destruct (UnmarshalPlayer it) as [err|p] eqn:Hu; [|destruct (head_outcome w)];
    rewrite (IH _ k Hk'); cbn [log_Printf snd players];
    rewrite ?players_set_table, ?players_pop; try done.
  apply lookup_delete_ne. apply (Hk it p); [by left|done].
Qed.

End Lifecycle.

(** X4. After a [CreateGameAndPlayer] that returned no error, the store
    carrying out the next read: the player of the request is the owner of the
    game and nobody else is, the game is not started, and [JoinGame] finds
    it. *)
Theorem created_game_observed (w : World) (r : CreateGameRequest) :
  let gid := reqGameId (cGameRequest r) in
  let pid := reqPlayerId (cGameRequest r) in
  let w' := (CreateGameAndPlayer r w).2 in
  (CreateGameAndPlayer r w).1 = None →
  calm 1 (faults w') = true →
  (IsGameOwner gid pid w').1 = Ok true
  ∧ (∀ other, other ≠ pid → (IsGameOwner gid other w').1 = Ok false)
  ∧ (∀ anyone, (GameState {| reqGameId := gid; reqPlayerId := anyone |} w').1 = Ok false)
  ∧ (∀ anyone name,
       (JoinGame {| jGameRequest := {| reqGameId := gid; reqPlayerId := anyone |};
                    jPlayerName := name |} w').1 = None).
Proof.
  intros gid pid w' Hok Hc.
  destruct (CreateGameAndPlayer_success w r Hok) as [Hg _]. fold w' gid in Hg.
  assert (games w' !! gid = Some (MarshalGame (gameItem_of r))) as Hst
    by (rewrite Hg; apply lookup_insert_eq).
  assert (Hh := calm_head 0 w' Hc).
  split_and!.
  - rewrite IsGameOwner_eq, Hh, Hst, UnmarshalGame_MarshalGame. cbn [fst gameItem_of OwnerId].
    fold pid. by rewrite String.eqb_refl.
  - intros other Hne.
    rewrite IsGameOwner_eq, Hh, Hst, UnmarshalGame_MarshalGame. cbn [fst gameItem_of OwnerId].
    fold pid. f_equal. apply String.eqb_neq. congruence.
  - intros anyone. rewrite GameState_eq. cbn [reqGameId].
    by rewrite Hh, Hst, UnmarshalGame_MarshalGame.
  - intros anyone name. rewrite JoinGame_eq. cbn [jGameRequest reqGameId].
    by rewrite Hh, Hst.
Qed.

Lemma created_game_observed_witness :
  let r := {| cGameName := "Chess"; cPlayerName := "Dan";
              cGameRequest := {| reqGameId := "S3"; reqPlayerId := "P4" |} |} in
  let w' := (CreateGameAndPlayer r (two_games [])).2 in
  (IsGameOwner "S3" "P4" w').1 = Ok true
  ∧ (IsGameOwner "S3" "P1" w').1 = Ok false
  ∧ (GameState {| reqGameId := "S3"; reqPlayerId := "P1" |} w').1 = Ok false.
Proof.
  intros r w'.
  destruct (created_game_observed (two_games []) r eq_refl eq_refl) as (H1 & H2 & H3 & _).
  split; [exact H1|]. split; [apply H2; discriminate|apply H3].
Defined.

(** X5. What the owner's [StartGame] and [EndGame] leave is what [GameState]
    then reports, and the owner stays the owner: for the owner of a stored
    game, the store carrying out the three calls, [GameState] returns true
    after [StartGame] and false after [EndGame], and [IsGameOwner] still
    returns true for the owner. *)
Theorem StartGame_EndGame_observed (w : World) (r : GameRequest)
    (item : Item) (game : Game) :
  games w !! reqGameId r = Some item →
  UnmarshalGame item = inr game →
  OwnerId game = reqPlayerId r →
  calm 3 (faults w) = true →
  (GameState r (StartGame r w).2).1 = Ok true
  ∧ (GameState r (EndGame r w).2).1 = Ok false
  ∧ (IsGameOwner (reqGameId r) (reqPlayerId r) (StartGame r w).2).1 = Ok true
  ∧ (IsGameOwner (reqGameId r) (reqPlayerId r) (EndGame r w).2).1 = Ok true.
Proof.
  intros Hg Hu Ho Hc.
  assert (calm 2 (faults w) = true) as Hc2
    by (destruct (faults w) as [|[?|] [|[?|] ?]]; done).
  assert (∀ t m, head_outcome (set_table t m (pop (pop w))) = None) as Hh.
  { intros t m. rewrite head_outcome_set_table, head_outcome_pop_pop.
    apply (calm_lookup 3); [done|lia]. }
  pose proof (set_started_owner w r item game Hg Hu Ho true Hc2) as Hs.
  pose proof (set_started_owner w r item game Hg Hu Ho false Hc2) as He.
  cbv iota in Hs, He. rewrite Hs, He. cbn [snd].
  rewrite !GameState_eq, !IsGameOwner_eq, !Hh, !games_set_table, !lookup_insert_eq.
  rewrite !(UnmarshalGame_set_started item game _ Hu). cbn [fst HasGameStarted OwnerId].
  by rewrite Ho, String.eqb_refl.
Qed.

Lemma StartGame_EndGame_observed_witness :
  (GameState {| reqGameId := "S1"; reqPlayerId := "P1" |}
     (StartGame {| reqGameId := "S1"; reqPlayerId := "P1" |} (two_games [])).2).1 = Ok true
  ∧ (GameState {| reqGameId := "S2"; reqPlayerId := "P3" |}
       (EndGame {| reqGameId := "S2"; reqPlayerId := "P3" |} (two_games [])).2).1 = Ok false.
Proof.
  destruct (StartGame_EndGame_observed (two_games [])
              {| reqGameId := "S1"; reqPlayerId := "P1" |} (MarshalGame settlers) settlers
              eq_refl eq_refl eq_refl eq_refl) as (H1 & _).
  destruct (StartGame_EndGame_observed (two_games [])
              {| reqGameId := "S2"; reqPlayerId := "P3" |} (MarshalGame risk) risk
              eq_refl eq_refl eq_refl eq_refl) as (_ & H2 & _).
  split; assumption.
Defined.

(** X6. Whoever calls them and whatever the store answers, [StartGame] and
    [EndGame] never change the players table, never create or delete a game,
    never change a game other than the one of the request, and change
    nothing at all when they return an error. *)
Theorem StartGame_EndGame_frame (w : World) (r : GameRequest) :
  (players (StartGame r w).2 = players w
   ∧ dom (games (StartGame r w).2) = dom (games w)
   ∧ (∀ k, k ≠ reqGameId r → games (StartGame r w).2 !! k = games w !! k)
   ∧ (∀ err, (StartGame r w).1 = Some err → games (StartGame r w).2 = games w))
  ∧ (players (EndGame r w).2 = players w
   ∧ dom (games (EndGame r w).2) = dom (games w)
   ∧ (∀ k, k ≠ reqGameId r → games (EndGame r w).2 !! k = games w !! k)
   ∧ (∀ err, (EndGame r w).1 = Some err → games (EndGame r w).2 = games w)).
Proof.
  split; [exact (set_started_frame w r true) | exact (set_started_frame w r false)].
Qed.

(** X7. [SetGameState] itself does not check that the game exists: on an id
    under which nothing is stored, the store carrying out the update, it
    returns no error and leaves a game with that id and the flag, an empty
    name and an empty owner. *)
Theorem SetGameState_missing_game (w : World) (state : bool) (gameId : string) :
  games w !! gameId = None →
  calm 1 (faults w) = true →
  (SetGameState state gameId w).1 = None
  ∧ ∃ item, games (SetGameState state gameId w).2 !! gameId = Some item
            ∧ UnmarshalGame item
              = inr {| GameId := gameId; GameName := EmptyString;
                       HasGameStarted := state; OwnerId := EmptyString |}.
Proof.
  intros Hg Hc. unfold SetGameState, UpdateItem_SET, bind.
  rewrite next_outcome_eq, (calm_head 0 w Hc).
  cbn [key_valid fst snd KeySchema String.eqb Ascii.eqb Bool.eqb negb table].
  rewrite games_pop, Hg. cbn [default fst snd ret].
  split; [done|]. eexists. rewrite games_set_table.
  split; [apply lookup_insert_eq|]. reflexivity.
Qed.

Lemma SetGameState_missing_game_witness :
  (SetGameState true "S9" (two_games [])).1 = None
  ∧ (GameState {| reqGameId := "S9"; reqPlayerId := "P1" |}
       (SetGameState true "S9" (two_games [])).2).1 = Ok true.
Proof.
  destruct (SetGameState_missing_game (two_games []) true "S9" eq_refl eq_refl) as [H _].
  split; [exact H | reflexivity].
Defined.

Lemma StartGame_EndGame_frame_witness :
  games (StartGame {| reqGameId := "S1"; reqPlayerId := "P2" |} (two_games [])).2
  = games (two_games [])
  ∧ games (EndGame {| reqGameId := "S2"; reqPlayerId := "P3" |} (two_games [])).2 !! "S1"
    = Some (MarshalGame settlers).
Proof.
  destruct (StartGame_EndGame_frame (two_games []) {| reqGameId := "S1"; reqPlayerId := "P2" |})
    as ((_ & _ & _ & H1) & _).
  destruct (StartGame_EndGame_frame (two_games []) {| reqGameId := "S2"; reqPlayerId := "P3" |})
    as (_ & (_ & _ & H2 & _)).
  split; [exact (H1 _ eq_refl)|]. rewrite (H2 "S1") by discriminate. reflexivity.
Defined.

(** X8. Whoever calls it and whatever the store answers, [DeleteGame] never
    changes a game other than the one of the request and never adds or
    changes a game or a player; on a well-formed players table it leaves in
    place every player whose [gameId] is not the one of the request. *)
Theorem DeleteGame_frame (w : World) (r : GameRequest) :
  let w' := (DeleteGame r w).2 in
  (∀ k, k ≠ reqGameId r → games w' !! k = games w !! k)
  ∧ (∀ k it, games w' !! k = Some it → games w !! k = Some it)
  ∧ (∀ k it, players w' !! k = Some it → players w !! k = Some it)
  ∧ (wf_table playersTableName (players w) →
     ∀ k it, players w !! k = Some it → it !! "gameId" ≠ Some (AvS (reqGameId r)) →
             players w' !! k = Some it).
Proof.
  intros w'. subst w'.
  destruct (DeleteGame_shape w r) as [[Hg Hp]|[Hg Hp]]; rewrite Hg.
  { rewrite Hp. by split_and!. }
  assert ((∀ k it, players (DeleteGame r w).2 !! k = Some it → players w !! k = Some it)
          ∧ (wf_table playersTableName (players w) →
             ∀ k it, players w !! k = Some it →
                     it !! "gameId" ≠ Some (AvS (reqGameId r)) →
                     players (DeleteGame r w).2 !! k = Some it)) as [Hsub Hkeep].
  { destruct Hp as [->|(w3 & Hp3 & ->)]; [done|]. split.
    - intros k it H. apply deletePlayers_subset in H. by rewrite <- Hp3.
    - intros Hwf k it Hk Hgid. rewrite deletePlayers_other; [by rewrite Hp3|].
      intros it' p Hin Hu <-.
      apply elem_of_members_of in Hin as ((k' & Hk') & Hgid').
      rewrite (UnmarshalPlayer_key _ k' it' p Hwf Hk' Hu) in Hk. congruence. }
  split_and!; try done.
  - intros k Hk. by apply lookup_delete_ne.
  - intros k it H. by apply lookup_delete_Some in H as [_ ?].
Qed.

(** [P1] deletes [S1] while the store fails one of the deletes: [S2] and its
    member [P3] stay. *)
Lemma DeleteGame_frame_witness :
  let w := two_games [None; None; None; Some RequestError] in
  let r := {| reqGameId := "S1"; reqPlayerId := "P1" |} in
  games (DeleteGame r w).2 !! "S2" = Some (MarshalGame risk)
  ∧ players (DeleteGame r w).2 !! "P3" = Some (MarshalPlayer cat).
Proof.
  intros w r. destruct (DeleteGame_frame w r) as (H1 & _ & _ & H4).
  split; [rewrite (H1 "S2") by discriminate; reflexivity|].
  apply H4; [|reflexivity|discriminate].
  apply (bool_decide_unpack _). vm_compute. exact I.
Defined.

(** X9. A game that [DeleteGame] deleted is gone for every later call: after
    a [DeleteGame] that returned no error, the store carrying out the next
    read, [DeleteGame] for that game by anyone returns the not-found error
    and changes nothing, and [GameState] and [JoinGame] return their
    not-found errors. *)
Theorem DeleteGame_then_not_found (w : World) (r : GameRequest) :
  let w' := (DeleteGame r w).2 in
  (DeleteGame r w).1 = None →
  calm 1 (faults w') = true →
  ∀ anyone,
    let again := {| reqGameId := reqGameId r; reqPlayerId := anyone |} in
    (DeleteGame again w').1
      = Some (errorString ("game with ID " ++ reqGameId r ++ " not found"))
    ∧ games (DeleteGame again w').2 = games w'
    ∧ players (DeleteGame again w').2 = players w'
    ∧ (GameState again w').1
      = Err (errorString ("game with ID " ++ reqGameId r ++ " not found"))
    ∧ (∀ name, (JoinGame {| jGameRequest := again; jPlayerName := name |} w').1
               = Some (errorString ("game " ++ reqGameId r ++ " not found"))).
Proof.
  intros w' Hok Hc anyone again.
  assert (games w' !! reqGameId r = None) as Hgone.
  { destruct (DeleteGame_success_inv w r w') as (w3 & Hg3 & _ & _ & Hw').
    - subst w'. destruct (DeleteGame r w) as [res w2]. cbn [fst] in Hok. by subst res.
    - rewrite Hw', deletePlayers_games, Hg3. apply lookup_delete_eq. }
  assert (Hh := calm_head 0 w' Hc).
  subst again.
  unfold DeleteGame, bind. rewrite IsGameOwner_eq, GameState_eq. cbn [reqGameId].
  rewrite Hh, Hgone. cbn [fst snd ret]. rewrite games_pop, players_pop.
  split_and!; try done.
  intros name. rewrite JoinGame_eq. cbn [jGameRequest reqGameId].
  by rewrite Hh, Hgone.
Qed.

Lemma DeleteGame_then_not_found_witness :
  let r := {| reqGameId := "S1"; reqPlayerId := "P1" |} in
  (DeleteGame r (DeleteGame r (two_games [])).2).1
  = Some (errorString "game with ID S1 not found").
Proof.
  intros r.
  destruct (DeleteGame_then_not_found (two_games []) r eq_refl eq_refl "P1") as (H & _).
  exact H.
Defined.

(** X10. When [IsGameOwner] returns an error (the store failed the read, no
    game is stored under the id, or the stored item does not decode), each of
    [DeleteGame], [RemovePlayer], [StartGame], [EndGame] and [PlayerList]
    returns that very error and leaves both tables as they were. *)
Theorem gate_error_propagates (w : World) (r : GameRequest) (err : error)
    (playerIdToRemove : string) :
  (IsGameOwner (reqGameId r) (reqPlayerId r) w).1 = Err err →
  let removeRequest := {| rGameRequest := r; PlayerIdToRemove := playerIdToRemove |} in
  ((DeleteGame r w).1 = Some err
   ∧ games (DeleteGame r w).2 = games w ∧ players (DeleteGame r w).2 = players w)
  ∧ ((RemovePlayer removeRequest w).1 = Some err
   ∧ games (RemovePlayer removeRequest w).2 = games w
   ∧ players (RemovePlayer removeRequest w).2 = players w)
  ∧ ((StartGame r w).1 = Some err
   ∧ games (StartGame r w).2 = games w ∧ players (StartGame r w).2 = players w)
  ∧ ((EndGame r w).1 = Some err
   ∧ games (EndGame r w).2 = games w ∧ players (EndGame r w).2 = players w)
  ∧ ((PlayerList r w).1 = Err err
   ∧ games (PlayerList r w).2 = games w ∧ players (PlayerList r w).2 = players w).
Proof.
  intros Hown removeRequest.
  unfold DeleteGame, RemovePlayer, StartGame, EndGame, PlayerList, bind.
  subst removeRequest. cbn [rGameRequest].
  destruct (IsGameOwner (reqGameId r) (reqPlayerId r) w) as [res w1] eqn:E.
  assert (w1 = pop w) as -> by (rewrite IsGameOwner_eq in E; congruence).
  cbn [fst] in Hown. subst res. cbn [fst snd ret].
  by rewrite games_pop, players_pop.
Qed.

(** A stored item that does not decode to a game cannot be deleted by
    [DeleteGame]. *)
Lemma gate_error_propagates_witness :
  let broken : Item := {[ "gameId" := AvS "S7"; "ownerId" := AvBOOL true ]} in
  let w := {| games := {[ "S7" := broken ]}; players := ∅; faults := [];
              log := []; stdout := [] |} in
  let r := {| reqGameId := "S7"; reqPlayerId := "P1" |} in
  (DeleteGame r w).1
  = Some (wrapError "failed to unmarshal game: "
            (AwsError (UnmarshalTypeError "bool" "string")))
  ∧ games (DeleteGame r w).2 !! "S7" = Some broken.
Proof.
  intros broken w r.
  destruct (gate_error_propagates w r
              (wrapError "failed to unmarshal game: "
                 (AwsError (UnmarshalTypeError "bool" "string"))) "P1" eq_refl)
    as ((H1 & H2 & _) & _).
  split; [exact H1|]. rewrite H2. reflexivity.
Defined.

(** ** PlayerList *)

Section Listing.

Implicit Types (w : World) (items : list Item) (p : Player).

Lemma decoded_players_cons it items :
  decoded_players (it :: items)
  = match UnmarshalPlayer it with
    | inr p => p :: decoded_players items
    | inl _ => decoded_players items
    end.
Proof. unfold decoded_players. simpl. by destruct (UnmarshalPlayer it). Qed.

Lemma elem_of_decoded_players items p :
  p ∈ decoded_players items ↔ ∃ it, it ∈ items ∧ UnmarshalPlayer it = inr p.
Proof.
  unfold decoded_players. rewrite list_elem_of_omap. split.
  - intros (it & Hin & H). exists it. split; [done|].
    destruct (UnmarshalPlayer it); congruence.
  - intros (it & Hin & H). exists it. split; [done|]. by rewrite H.
Qed.

Lemma collectPlayers_spec items : ∀ acc w,
  (collectPlayers items acc w).1 = (acc ++ decoded_players items)%list
  ∧ games (collectPlayers items acc w).2 = games w
  ∧ players (collectPlayers items acc w).2 = players w
  ∧ length (log (collectPlayers items acc w).2)
    = length (log w) + length (filter (λ it, decodes it = false) items).
Proof.
  induction items as [|it items IH]; intros acc w.
  - simpl. rewrite app_nil_r. split_and!; try done; lia.
  - cbn [collectPlayers]. rewrite decoded_players_cons.
    destruct (UnmarshalPlayer it) as [err|p] eqn:Hu.
    + unfold bind. cbn [log_Printf].
      destruct (IH acc {| games := games w; players := players w; faults := faults w;
                          log := log w ++ ["Failed to unmarshal player: "
                                           ++ Error (AwsError err)]%string;
                          stdout := stdout w |}) as (H1 & H2 & H3 & H4).
      rewrite H1, H2, H3, H4. cbn [games players log].
      rewrite filter_cons_True by (unfold decodes; by rewrite Hu).
      rewrite length_app. simpl. split_and!; try done; lia.
    + destruct (IH (acc ++ [p])%list w) as (H1 & H2 & H3 & H4).
      rewrite H1, H2, H3, H4, <- app_assoc.
      rewrite filter_cons_False by (unfold decodes; by rewrite Hu).
      done.
Qed.

Lemma PlayerList_owner_eq w (r : GameRequest) item game :
  games w !! reqGameId r = Some item →
  UnmarshalGame item = inr game →
  OwnerId game = reqPlayerId r →
  calm 2 (faults w) = true →
  (PlayerList r w).1 = Ok (decoded_players (members_of (reqGameId r) w))
  ∧ games (PlayerList r w).2 = games w
  ∧ players (PlayerList r w).2 = players w
  ∧ length (log (PlayerList r w).2)
    = length (log w)
      + length (filter (λ it, decodes it = false) (members_of (reqGameId r) w)).
Proof.
  intros Hg Hu Ho Hc.
  assert (calm 1 (faults w) = true) as Hc1 by (by destruct (faults w) as [|[?|] ?]).
  unfold PlayerList, bind.
  rewrite (IsGameOwner_owner _ _ w item game Hc1 Hg Hu), Ho, String.eqb_refl.
  rewrite Query_members_eq, head_outcome_pop, (calm_lookup 2 _ 1 Hc) by lia.
  rewrite (members_of_players _ (pop w) w) by apply players_pop.
  destruct (collectPlayers_spec (members_of (reqGameId r) w) [] (pop (pop w)))
    as (H1 & H2 & H3 & H4).
  destruct (collectPlayers _ _ _) as [l w2]. cbn [fst snd ret] in *.
  rewrite H1, H2, H3, H4, !games_pop, !players_pop, !log_pop. done.
Qed.

Lemma elem_of_decoded_members gid w p :
  p ∈ decoded_players (members_of gid w)
  ↔ ∃ k it, players w !! k = Some it ∧ it !! "gameId" = Some (AvS gid)
            ∧ UnmarshalPlayer it = inr p.
Proof.
  rewrite elem_of_decoded_players. split.
  - intros (it & Hin & Hu). apply elem_of_members_of in Hin as ((k & Hk) & Hgid).
    by exists k, it.
  - intros (k & it & Hk & Hgid & Hu). exists it. split; [|done].
    apply elem_of_members_of. eauto.
Qed.

(** A player decoded from an item has the [gameId] of the item. *)
Lemma UnmarshalPlayer_gameId it p gid :
  UnmarshalPlayer it = inr p → it !! "gameId" = Some (AvS gid) → PlayerGameId p = gid.
Proof.
  unfold UnmarshalPlayer. intros Hu Hgid. rewrite Hgid in Hu. simpl in Hu.
  destruct (decodeString (it !! "playerId")); [discriminate|].
  destruct (decodeString (it !! "playerName")); [discriminate|].
  by injection Hu as <-.
Qed.

(** The ids of the players decoded from the items of a list of pairs whose
    keys are distinct and are the ids of their items. *)
Lemma decoded_ids_NoDup (P : Item → Prop) `{!∀ it, Decision (P it)}
    (L : list (string * Item)) :
  NoDup L.*1 →
  (∀ k it p, (k, it) ∈ L → UnmarshalPlayer it = inr p → PlayerId p = k) →
  NoDup (PlayerId <$> decoded_players (filter P L.*2))
  ∧ ∀ x, x ∈ PlayerId <$> decoded_players (filter P L.*2) → x ∈ L.*1.
Proof.
  induction L as [|[k it] L IH]; intros Hnd Hkey.
  - split; [constructor|]. intros x Hx. by apply elem_of_nil in Hx.
  - apply NoDup_cons in Hnd as [Hk Hnd].
    destruct IH as [IHnd IHsub]; [done|intros ????; eapply Hkey; by right|].
    cbn [fmap list_fmap snd fst].
    destruct (decide (P it)) as [HP|HP];
      [rewrite filter_cons_True by done|rewrite filter_cons_False by done].
    + rewrite decoded_players_cons.
      destruct (UnmarshalPlayer it) as [err|p] eqn:Hu.
      * split; [done|]. intros x Hx. right. by apply IHsub.
      * assert (PlayerId p = k) as Hpk by (eapply Hkey; [by left|done]).
        rewrite fmap_cons, Hpk. split.
        -- apply NoDup_cons. split; [|done]. intros Hin. apply Hk. by apply IHsub.
        -- intros x Hx. apply elem_of_cons in Hx as [->|Hx]; [by left|].
           right. by apply IHsub.
    + split; [done|]. intros x Hx. right. by apply IHsub.
Qed.

Lemma decoded_members_NoDup gid w :
  wf_table playersTableName (players w) →
  NoDup (PlayerId <$> decoded_players (members_of gid w)).
Proof.
  intros Hwf. unfold members_of.
  apply (decoded_ids_NoDup (λ it : Item, it !! "gameId" = Some (AvS gid))
           (map_to_list (players w))).
  - apply NoDup_fst_map_to_list.
  - intros k it p Hin Hu. apply elem_of_map_to_list in Hin.
    by eapply UnmarshalPlayer_key.
Qed.

End Listing.

(** X11. For the owner of a stored game, the store carrying out the read and
    the query, [PlayerList] changes neither table and returns exactly the
    players that the stored items with the [gameId] of the request decode to:
    each returned player has that [GameId]; items that do not decode are left
    out, one log line written for each; on a well-formed players table no
    [PlayerId] is returned twice. *)
Theorem PlayerList_owner (w : World) (r : GameRequest) (item : Item) (game : Game) :
  games w !! reqGameId r = Some item →
  UnmarshalGame item = inr game →
  OwnerId game = reqPlayerId r →
  calm 2 (faults w) = true →
  ∃ playerList,
    (PlayerList r w).1 = Ok playerList
    ∧ games (PlayerList r w).2 = games w
    ∧ players (PlayerList r w).2 = players w
    ∧ (∀ p, p ∈ playerList
            ↔ ∃ k it, players w !! k = Some it
                      ∧ it !! "gameId" = Some (AvS (reqGameId r))
                      ∧ UnmarshalPlayer it = inr p)
    ∧ (∀ p, p ∈ playerList → PlayerGameId p = reqGameId r)
    ∧ length (log (PlayerList r w).2)
      = length (log w) + length (members_of (reqGameId r) w) - length playerList
    ∧ (wf_table playersTableName (players w) → NoDup (PlayerId <$> playerList)).
Proof.
  intros Hg Hu Ho Hc.
  destruct (PlayerList_owner_eq w r item game Hg Hu Ho Hc) as (H1 & H2 & H3 & H4).
  exists (decoded_players (members_of (reqGameId r) w)).
  split_and!; try done.
  - apply elem_of_decoded_members.
  - intros p Hp. apply elem_of_decoded_members in Hp as (k & it & _ & Hgid & Hd).
    by eapply UnmarshalPlayer_gameId.
  - rewrite H4. clear.
    induction (members_of (reqGameId r) w) as [|it items IH]; [simpl; lia|].
    rewrite decoded_players_cons.
    assert (length (decoded_players items) ≤ length items)%nat as Hle.
    { clear. induction items as [|it' items IH]; [done|].
      rewrite decoded_players_cons. destruct (UnmarshalPlayer it'); simpl; lia. }
    destruct (UnmarshalPlayer it) as [err|p] eqn:Hu.
    + rewrite filter_cons_True by (unfold decodes; by rewrite Hu). simpl. lia.
    + rewrite filter_cons_False by (unfold decodes; by rewrite Hu). simpl. lia.
  - apply decoded_members_NoDup.
Qed.

Lemma PlayerList_owner_witness :
  ∃ playerList,
    (PlayerList {| reqGameId := "S1"; reqPlayerId := "P1" |} (two_games [])).1
    = Ok playerList
    ∧ bob ∈ playerList ∧ cat ∉ playerList.
Proof.
  destruct (PlayerList_owner (two_games []) {| reqGameId := "S1"; reqPlayerId := "P1" |}
              (MarshalGame settlers) settlers eq_refl eq_refl eq_refl eq_refl)
    as (l & H & _ & _ & Hiff & Hgid & _).
  exists l. split; [exact H|]. split.
  - apply Hiff. exists "P2", (MarshalPlayer bob). by split_and!.
  - intros Hin. apply Hgid in Hin. discriminate.
Defined.

Section Membership.

Implicit Types (w : World) (p : Player).

Lemma listing_after_delete gid w w1 target :
  wf_table playersTableName (players w) →
  players w1 = delete target (players w) →
  ∀ p, p ∈ decoded_players (members_of gid w1)
       ↔ p ∈ decoded_players (members_of gid w) ∧ PlayerId p ≠ target.
Proof.
  intros Hwf Hp1 p. rewrite !elem_of_decoded_members, Hp1. split.
  - intros (k & it & Hk & Hgid & Hu). apply lookup_delete_Some in Hk as [Hne Hk].
    split; [by exists k, it|]. by rewrite (UnmarshalPlayer_key _ k it p Hwf Hk Hu).
  - intros [(k & it & Hk & Hgid & Hu) Hne]. exists k, it. split_and!; try done.
    apply lookup_delete_Some. split; [|done].
    by rewrite <- (UnmarshalPlayer_key _ k it p Hwf Hk Hu).
Qed.

Lemma listing_after_insert gid w w1 (new : Player) :
  players w !! PlayerId new = None →
  players w1 = <[PlayerId new := MarshalPlayer new]> (players w) →
  ∀ p, p ∈ decoded_players (members_of gid w1)
       ↔ p ∈ decoded_players (members_of gid w) ∨ (p = new ∧ PlayerGameId new = gid).
Proof.
  intros Hfresh Hp1 p. rewrite !elem_of_decoded_members, Hp1. split.
  - intros (k & it & Hk & Hgid & Hu).
    apply lookup_insert_Some in Hk as [[<- <-]|[Hne Hk]].
    + right. rewrite UnmarshalPlayer_MarshalPlayer in Hu. injection Hu as <-.
      split; [done|]. unfold MarshalPlayer in Hgid.
      rewrite !lookup_insert_ne, lookup_insert_eq in Hgid by done. congruence.
    + left. by exists k, it.
  - intros [(k & it & Hk & Hgid & Hu)|[-> <-]].
    + exists k, it. split_and!; try done. apply lookup_insert_Some. right.
      split; [|done]. intros <-. congruence.
    + exists (PlayerId new), (MarshalPlayer new).
      split_and!; [apply lookup_insert_eq|done|apply UnmarshalPlayer_MarshalPlayer].
Qed.

Lemma RemovePlayer_owner_eq w (req : RemovePlayerRequest) item game :
  games w !! reqGameId (rGameRequest req) = Some item →
  UnmarshalGame item = inr game →
  OwnerId game = reqPlayerId (rGameRequest req) →
  calm 2 (faults w) = true →
  (RemovePlayer req w).1 = None
  ∧ games (RemovePlayer req w).2 = games w
  ∧ players (RemovePlayer req w).2 = delete (PlayerIdToRemove req) (players w)
  ∧ faults (RemovePlayer req w).2 = tail (tail (faults w)).
Proof.
  intros Hg Hu Ho Hc.
  assert (calm 1 (faults w) = true) as Hc1 by (by destruct (faults w) as [|[?|] ?]).
  unfold RemovePlayer, bind.
  rewrite (IsGameOwner_owner _ _ w item game Hc1 Hg Hu), Ho, String.eqb_refl.
  rewrite DeleteItem_players_eq, head_outcome_pop, (calm_lookup 2 _ 1 Hc) by lia.
  cbn [fst snd log_Printf ret games players faults].
  by autorewrite with world.
Qed.

Lemma LeaveGame_eq w (r : GameRequest) :
  calm 1 (faults w) = true →
  (LeaveGame r w).1 = None
  ∧ games (LeaveGame r w).2 = games w
  ∧ players (LeaveGame r w).2 = delete (reqPlayerId r) (players w)
  ∧ faults (LeaveGame r w).2 = tail (faults w).
Proof.
  intros Hc. unfold LeaveGame, bind.
  rewrite DeleteItem_players_eq, (calm_head 0 w Hc).
  cbn [fst snd log_Printf ret games players faults].
  by autorewrite with world.
Qed.

(** The status and the world [handleJoinGame] leaves, from the outcomes of
    its two store calls. *)
Lemma handleJoinGame_cases w (body : JoinGameRequest) :
  let gid := reqGameId (jGameRequest body) in
  let pid := reqPlayerId (jGameRequest body) in
  let new := {| PlayerId := pid; PlayerName := jPlayerName body; PlayerGameId := gid |} in
  let run := handleJoinGame (Some body) w in
  (StatusCode run.1, games run.2, players run.2)
  = match head_outcome w, games w !! gid with
    | Some _, _ | None, None => (404%Z, games w, players w)
    | None, Some _ =>
      match head_outcome (pop w) with
      | Some e =>
          (if String.eqb (Code e) ErrCodeConditionalCheckFailedException
           then 409%Z else 500%Z, games w, players w)
      | None =>
          if condition_holds (attribute_not_exists "playerId") (players w !! pid)
          then (200%Z, games w, <[pid := MarshalPlayer new]> (players w))
          else (409%Z, games w, players w)
      end
    end.
Proof.
  intros gid pid new run. subst run. unfold handleJoinGame, bind.
  rewrite JoinGame_eq. fold gid.
  destruct (head_outcome w);
    [cbn [fst snd ret StatusCode]; autorewrite with world; reflexivity|].
  destruct (games w !! gid);
    [|cbn [fst snd ret StatusCode]; autorewrite with world; reflexivity].
  rewrite CreatePlayer_eq. fold gid pid new. rewrite players_pop.
  destruct (head_outcome (pop w)) as [e|].
  { cbn [errors_As_awserr]. destruct (String.eqb (Code e) _);
      cbn [fst snd ret StatusCode]; autorewrite with world; reflexivity. }
  destruct (condition_holds _ (players w !! pid)).
  - cbn [fst snd ret StatusCode fmt_Printf games players].
    autorewrite with world; reflexivity.
  - cbn [errors_As_awserr].
    assert (String.eqb (Code ConditionalCheckFailedException)
              ErrCodeConditionalCheckFailedException = true) as -> by reflexivity.
    cbn [fst snd ret StatusCode]. autorewrite with world; reflexivity.
Qed.

End Membership.

(** X12. After the owner of a stored game removed a player with
    [RemovePlayer], [PlayerList] returns what it returned before without the
    player of that id (well-formed players table, the store carrying out the
    calls). *)
Theorem removed_player_not_listed (w : World) (r : GameRequest) (item : Item)
    (game : Game) (target : string) :
  games w !! reqGameId r = Some item →
  UnmarshalGame item = inr game →
  OwnerId game = reqPlayerId r →
  wf_table playersTableName (players w) →
  calm 4 (faults w) = true →
  let w1 := (RemovePlayer {| rGameRequest := r; PlayerIdToRemove := target |} w).2 in
  ∃ before after,
    (PlayerList r w).1 = Ok before
    ∧ (PlayerList r w1).1 = Ok after
    ∧ ∀ p, p ∈ after ↔ p ∈ before ∧ PlayerId p ≠ target.
Proof.
  intros Hg Hu Ho Hwf Hc w1.
  assert (calm 2 (faults w) = true) as Hc2
    by (destruct (faults w) as [|[?|] [|[?|] ?]]; done).
  destruct (RemovePlayer_owner_eq w {| rGameRequest := r; PlayerIdToRemove := target |}
              item game Hg Hu Ho Hc2) as (_ & Hg1 & Hp1 & Hf1).
  fold w1 in Hg1, Hp1, Hf1. cbn [PlayerIdToRemove] in Hp1.
  assert (calm 2 (faults w1) = true) as Hc1
    by (rewrite Hf1; destruct (faults w) as [|[?|] [|[?|] [|[?|] [|[?|] ?]]]]; done).
  destruct (PlayerList_owner_eq w r item game Hg Hu Ho Hc2) as (H0 & _).
  destruct (PlayerList_owner_eq w1 r item game) as (H1 & _);
    [by rewrite Hg1|done|done|done|].
  eexists _, _. split; [exact H0|]. split; [exact H1|].
  by apply listing_after_delete.
Qed.

Lemma removed_player_not_listed_witness :
  let r := {| reqGameId := "S1"; reqPlayerId := "P1" |} in
  (PlayerList r (RemovePlayer {| rGameRequest := r; PlayerIdToRemove := "P2" |}
                   (two_games [])).2).1 = Ok [ann].
Proof.
  intros r.
  destruct (removed_player_not_listed (two_games []) r (MarshalGame settlers) settlers "P2"
              eq_refl eq_refl eq_refl) as (before & after & _ & H & _).
  - apply (bool_decide_unpack _). vm_compute. exact I.
  - reflexivity.
  - reflexivity.
Defined.

(** X13. [LeaveGame] does not look at the [GameId] of its request: whatever
    it is, the player of the [PlayerId] leaves the game they are in, so that
    the owner's [PlayerList] returns what it returned before without that
    player (well-formed players table, the store carrying out the calls). *)
Theorem left_player_not_listed (w : World) (r leave : GameRequest) (item : Item)
    (game : Game) :
  games w !! reqGameId r = Some item →
  UnmarshalGame item = inr game →
  OwnerId game = reqPlayerId r →
  wf_table playersTableName (players w) →
  calm 3 (faults w) = true →
  let w1 := (LeaveGame leave w).2 in
  (LeaveGame leave w).1 = None
  ∧ ∃ before after,
      (PlayerList r w).1 = Ok before
      ∧ (PlayerList r w1).1 = Ok after
      ∧ ∀ p, p ∈ after ↔ p ∈ before ∧ PlayerId p ≠ reqPlayerId leave.
Proof.
  intros Hg Hu Ho Hwf Hc w1.
  assert (calm 2 (faults w) = true) as Hc2
    by (destruct (faults w) as [|[?|] [|[?|] ?]]; done).
  assert (calm 1 (faults w) = true) as Hc1' by (by destruct (faults w) as [|[?|] ?]).
  destruct (LeaveGame_eq w leave Hc1') as (Hok & Hg1 & Hp1 & Hf1).
  fold w1 in Hg1, Hp1, Hf1.
  assert (calm 2 (faults w1) = true) as Hc1
    by (rewrite Hf1; destruct (faults w) as [|[?|] [|[?|] [|[?|] ?]]]; done).
  destruct (PlayerList_owner_eq w r item game Hg Hu Ho Hc2) as (H0 & _).
  destruct (PlayerList_owner_eq w1 r item game) as (H1 & _);
    [by rewrite Hg1|done|done|done|].
  split; [done|]. eexists _, _. split; [exact H0|]. split; [exact H1|].
  by apply listing_after_delete.
Qed.

(** [P2] leaves naming [S2], and is gone from [S1]. *)
Lemma left_player_not_listed_witness :
  let w1 := (LeaveGame {| reqGameId := "S2"; reqPlayerId := "P2" |} (two_games [])).2 in
  (PlayerList {| reqGameId := "S1"; reqPlayerId := "P1" |} w1).1 = Ok [ann].
Proof.
  intros w1.
  destruct (left_player_not_listed (two_games []) {| reqGameId := "S1"; reqPlayerId := "P1" |}
              {| reqGameId := "S2"; reqPlayerId := "P2" |} (MarshalGame settlers) settlers
              eq_refl eq_refl eq_refl) as (_ & before & after & _ & H & _).
  - apply (bool_decide_unpack _). vm_compute. exact I.
  - reflexivity.
  - reflexivity.
Defined.

(** ** The handlers *)

(** Membership in a list written out. *)
Ltac in_list :=
  solve [repeat first [apply list_elem_of_here | apply list_elem_of_further]].

(** X14. [handleJoinGame] on a decoded request never changes the games
    table and changes the players table only when it answers 200, by storing
    the player of the request; it answers 200, 404, 409 or 500.  On a
    well-formed players table, the store carrying out both calls: 404 exactly
    when no game is stored under the [GameId], 409 exactly when the game is
    stored and a player is already stored under the [PlayerId], who is left as
    stored, and 200 exactly when the game is stored and the id is free. *)
Theorem handleJoinGame_spec (w : World) (body : JoinGameRequest) :
  let gid := reqGameId (jGameRequest body) in
  let pid := reqPlayerId (jGameRequest body) in
  let new := {| PlayerId := pid; PlayerName := jPlayerName body; PlayerGameId := gid |} in
  let run := handleJoinGame (Some body) w in
  games run.2 = games w
  ∧ (StatusCode run.1 = 200%Z → players run.2 = <[pid := MarshalPlayer new]> (players w))
  ∧ (StatusCode run.1 ≠ 200%Z → players run.2 = players w)
  ∧ StatusCode run.1 ∈ [200%Z; 404%Z; 409%Z; 500%Z]
  ∧ (wf_table playersTableName (players w) → calm 2 (faults w) = true →
     (StatusCode run.1 = 404%Z ↔ games w !! gid = None)
     ∧ (StatusCode run.1 = 409%Z ↔ is_Some (games w !! gid) ∧ is_Some (players w !! pid))
     ∧ (StatusCode run.1 = 200%Z ↔ is_Some (games w !! gid) ∧ players w !! pid = None)).
Proof.
  intros gid pid new run.
  pose proof (handleJoinGame_cases w body) as Hcases. cbv zeta in Hcases.
  fold gid pid new run in Hcases.
  destruct (head_outcome w) as [e0|] eqn:Hh0.
  { injection Hcases as -> -> ->. split_and!; try done; [in_list|].
    intros _ Hc. rewrite head_outcome_lookup, (calm_lookup 2 _ 0 Hc) in Hh0 by lia.
    discriminate. }
  destruct (games w !! gid) as [g|] eqn:Hg.
  2:{ injection Hcases as -> -> ->. split_and!; try done; [in_list|].
      intros _ _. split; [done|]. split.
      - split; [discriminate|]. by intros [[? ?] _].
      - split; [discriminate|]. by intros [[? ?] _]. }
  destruct (head_outcome (pop w)) as [e1|] eqn:Hh1.
  { assert (StatusCode run.1 ≠ 200%Z ∧ StatusCode run.1 ∈ [200%Z; 404%Z; 409%Z; 500%Z]
            ∧ games run.2 = games w ∧ players run.2 = players w) as (Hne & Hin & -> & ->).
    { destruct (String.eqb (Code e1) _); injection Hcases as -> -> ->;
        split_and!; try done; in_list. }
    split_and!; try done.
    intros _ Hc. rewrite head_outcome_pop, (calm_lookup 2 _ 1 Hc) in Hh1 by lia.
    discriminate. }
  destruct (condition_holds _ (players w !! pid)) eqn:Hcond;
    injection Hcases as -> -> ->; (split_and!; try done; [in_list|]).
  - intros Hwf _.
    pose proof (condition_holds_wf playersTableName _ pid Hwf) as Hch.
    cbn [KeySchema] in Hch. rewrite Hch in Hcond. apply bool_decide_eq_true in Hcond.
    split; [split; discriminate|]. split.
    + split; [discriminate|]. intros [_ [? ?]]. congruence.
    + split; [|done]. intros _. split; [by eexists|done].
  - intros Hwf _.
    pose proof (condition_holds_wf playersTableName _ pid Hwf) as Hch.
    cbn [KeySchema] in Hch. rewrite Hch in Hcond. apply bool_decide_eq_false in Hcond.
    split; [split; discriminate|]. split.
    + split; [|done]. intros _. split; [by eexists|].
      destruct (players w !! pid); [by eexists|done].
    + split; [discriminate|]. intros [_ ?]. done.
Qed.

(** [P2], a member of [S1], asks to join [S2]: 409, and [P2] stays in [S1]. *)
Lemma handleJoinGame_spec_witness :
  let move := {| jGameRequest := {| reqGameId := "S2"; reqPlayerId := "P2" |};
                 jPlayerName := "Bob" |} in
  StatusCode (handleJoinGame (Some move) (two_games [])).1 = 409%Z
  ∧ players (handleJoinGame (Some move) (two_games [])).2 !! "P2" = Some (MarshalPlayer bob).
Proof.
  intros move.
  destruct (handleJoinGame_spec (two_games []) move) as (_ & _ & Hsame & _ & H).
  destruct H as (_ & H409 & _).
  - apply (bool_decide_unpack _). vm_compute. exact I.
  - reflexivity.
  - assert (StatusCode (handleJoinGame (Some move) (two_games [])).1 = 409%Z) as Hs
      by (apply H409; split; by eexists).
    split; [exact Hs|]. rewrite Hsame; [reflexivity|]. rewrite Hs. discriminate.
Defined.

(** X15. After [handleJoinGame] answered 200, the owner's [PlayerList] of a
    game returns what it returned before and, if the game is the one joined,
    the new player (well-formed players table, the store carrying out the
    calls). *)
Theorem joined_player_listed (w : World) (body : JoinGameRequest) (r : GameRequest)
    (item : Item) (game : Game) :
  let new := {| PlayerId := reqPlayerId (jGameRequest body);
                PlayerName := jPlayerName body;
                PlayerGameId := reqGameId (jGameRequest body) |} in
  let w1 := (handleJoinGame (Some body) w).2 in
  games w !! reqGameId r = Some item →
  UnmarshalGame item = inr game →
  OwnerId game = reqPlayerId r →
  wf_table playersTableName (players w) →
  calm 2 (faults w) = true →
  calm 2 (faults w1) = true →
  StatusCode (handleJoinGame (Some body) w).1 = 200%Z →
  ∃ before after,
    (PlayerList r w).1 = Ok before
    ∧ (PlayerList r w1).1 = Ok after
    ∧ ∀ p, p ∈ after
           ↔ p ∈ before ∨ (p = new ∧ reqGameId (jGameRequest body) = reqGameId r).
Proof.
  intros new w1 Hg Hu Ho Hwf Hc Hc1 H200.
  pose proof (handleJoinGame_cases w body) as Hcases. cbv zeta in Hcases.
  fold new w1 in Hcases. rewrite H200 in Hcases.
  rewrite head_outcome_lookup, (calm_lookup 2 _ 0 Hc) in Hcases by lia.
  destruct (games w !! reqGameId (jGameRequest body)); [|discriminate].
  rewrite head_outcome_pop, (calm_lookup 2 _ 1 Hc) in Hcases by lia.
  pose proof (condition_holds_wf playersTableName _ (reqPlayerId (jGameRequest body)) Hwf)
    as Hch.
  cbn [KeySchema] in Hch. rewrite Hch in Hcases.
  case_bool_decide as Hfresh; [|discriminate].
  injection Hcases as Hg1 Hp1.
  destruct (PlayerList_owner_eq w r item game Hg Hu Ho Hc) as (H0 & _).
  destruct (PlayerList_owner_eq w1 r item game) as (H1 & _);
    [by rewrite Hg1|done|done|done|].
  eexists _, _. split; [exact H0|]. split; [exact H1|].
  intros p. by apply (listing_after_insert (reqGameId r) w w1 new).
Qed.

Lemma joined_player_listed_witness :
  let join := {| jGameRequest := {| reqGameId := "S2"; reqPlayerId := "P4" |};
                 jPlayerName := "Dan" |} in
  (PlayerList {| reqGameId := "S2"; reqPlayerId := "P3" |}
     (handleJoinGame (Some join) (two_games [])).2).1
  = Ok [cat; {| PlayerId := "P4"; PlayerName := "Dan"; PlayerGameId := "S2" |}].
Proof.
  intros join.
  destruct (joined_player_listed (two_games []) join {| reqGameId := "S2"; reqPlayerId := "P3" |}
              (MarshalGame risk) risk eq_refl eq_refl eq_refl) as (b & a & _ & H & _).
  - apply (bool_decide_unpack _). vm_compute. exact I.
  - reflexivity.
  - reflexivity.
  - reflexivity.
  - reflexivity.
Defined.

(** X16. [handleCreateGame] on a decoded request answers 200, 409 or 500: 200
    exactly when [CreateGameAndPlayer] returned no error, and then the game
    and its owner are stored; 409 exactly when the error is a cancelled
    transaction; on 409 and 500 both tables are as they were. *)
Theorem handleCreateGame_spec (w : World) (body : CreateGameRequest) :
  let run := handleCreateGame (Some body) w in
  StatusCode run.1 ∈ [200%Z; 409%Z; 500%Z]
  ∧ (StatusCode run.1 = 200%Z ↔ (CreateGameAndPlayer body w).1 = None)
  ∧ (StatusCode run.1 = 409%Z
     ↔ ∃ err, (CreateGameAndPlayer body w).1 = Some err
              ∧ errors_As_TransactionCanceledException err = true)
  ∧ (StatusCode run.1 = 200%Z →
     games run.2 !! reqGameId (cGameRequest body) = Some (MarshalGame (gameItem_of body))
     ∧ players run.2 !! reqPlayerId (cGameRequest body)
       = Some (MarshalPlayer (playerItem_of body)))
  ∧ (StatusCode run.1 ≠ 200%Z → games run.2 = games w ∧ players run.2 = players w).
Proof.
  intros run. subst run. unfold handleCreateGame, bind.
  pose proof (CreateGameAndPlayer_success w body) as Hok.
  rewrite CreateGameAndPlayer_eq in *.
  destruct (head_outcome w) as [e|].
  { cbn [fst snd errors_As_TransactionCanceledException].
    destruct (String.eqb (Code e) _) eqn:Hcode; cbn [fst snd ret StatusCode];
      autorewrite with world;
      (split_and!; [in_list|split; discriminate| |discriminate|done]).
    - split; [intros _; by eexists|done].
    - split; [discriminate|]. intros (err & [= <-] & Hc). simpl in Hc. congruence. }
  destruct (_ && _).
  - cbn [fst snd ret StatusCode] in *. destruct (Hok eq_refl) as [-> ->].
    split_and!; try done; [in_list| |].
    + split; [discriminate|]. by intros (err & ? & _).
    + intros _. by rewrite !lookup_insert_eq.
  - cbn [fst snd errors_As_TransactionCanceledException].
    assert (String.eqb (Code TransactionCanceledException)
              ErrCodeTransactionCanceledException = true) as -> by reflexivity.
    cbn [fst snd ret StatusCode]. autorewrite with world.
    split_and!; [in_list|split; discriminate| |discriminate|done].
    split; [intros _; by eexists|done].
Qed.

Lemma handleCreateGame_spec_witness :
  let taken := {| cGameName := "Go"; cPlayerName := "Bob";
                  cGameRequest := {| reqGameId := "S4"; reqPlayerId := "P2" |} |} in
  StatusCode (handleCreateGame (Some taken) (two_games [])).1 = 409%Z
  ∧ games (handleCreateGame (Some taken) (two_games [])).2 !! "S4" = None.
Proof.
  intros taken.
  destruct (handleCreateGame_spec (two_games []) taken) as (_ & _ & H409 & _ & Hsame).
  assert (StatusCode (handleCreateGame (Some taken) (two_games [])).1 = 409%Z) as Hs.
  { apply H409. eexists. split; reflexivity. }
  split; [exact Hs|]. destruct Hsame as [-> _]; [rewrite Hs; discriminate|reflexivity].
Defined.

Section Router.

Variable J : encoding_json.

Implicit Types (w : World) (request : APIGatewayProxyRequest).

(** The handlers that answer every error with 400. *)
Lemma simple_handlers_status (decoded : option GameRequest)
    (decodedRemove : option RemovePlayerRequest) w :
  StatusCode (handleDeleteGame decoded w).1 ∈ [200%Z; 400%Z]
  ∧ StatusCode (handleRemovePlayer decodedRemove w).1 ∈ [200%Z; 400%Z]
  ∧ StatusCode (handleStartGame decoded w).1 ∈ [200%Z; 400%Z]
  ∧ StatusCode (handleEndGame decoded w).1 ∈ [200%Z; 400%Z]
  ∧ StatusCode (handlePlayerList J decoded w).1 ∈ [200%Z; 400%Z]
  ∧ StatusCode (handleLeaveGame decoded w).1 ∈ [200%Z; 400%Z]
  ∧ StatusCode (handleGameState decoded w).1 ∈ [200%Z; 400%Z]
  ∧ StatusCode (handleIsOwner decoded w).1 ∈ [200%Z; 400%Z].
Proof.
  unfold handleDeleteGame, handleRemovePlayer, handleStartGame, handleEndGame,
    handlePlayerList, handleLeaveGame, handleGameState, handleIsOwner, bind.
  destruct decoded as [body|], decodedRemove as [bodyRemove|]; split_and!;
    try (cbn [ret fst StatusCode]; in_list).
  all: match goal with
       | |- context [let '(_, _) := ?m ?w0 in _] => destruct (m w0) as [[] ?]
       end; cbn [ret fst StatusCode]; in_list.
Qed.

Lemma handleCreateGame_status decoded w :
  StatusCode (handleCreateGame decoded w).1 ∈ [200%Z; 400%Z; 409%Z; 500%Z].
Proof.
  unfold handleCreateGame, bind. destruct decoded as [body|];
    [|cbn [ret fst StatusCode]; in_list].
  destruct (CreateGameAndPlayer body w) as [[err|] w1];
    [destruct (errors_As_TransactionCanceledException err)|];
    cbn [ret fst StatusCode]; in_list.
Qed.

Lemma handleJoinGame_status decoded w :
  StatusCode (handleJoinGame decoded w).1 ∈ [200%Z; 400%Z; 404%Z; 409%Z; 500%Z].
Proof.
  unfold handleJoinGame, bind. destruct decoded as [body|];
    [|cbn [ret fst StatusCode]; in_list].
  destruct (JoinGame body w) as [[err|] w1]; [cbn [ret fst StatusCode]; in_list|].
  destruct (CreatePlayer body w1) as [[err|] w2]; [|cbn [ret fst StatusCode]; in_list].
  destruct (errors_As_awserr err) as [a|]; [destruct (String.eqb (Code a) _)|];
    cbn [ret fst StatusCode]; in_list.
Qed.

(** [HandleRequest] on each path. *)
Lemma HandleRequest_route request w :
  HandleRequest J request w
  = let body := RequestBody request in
    if decide (Path request = "/createGame") then
      handleCreateGame (Unmarshal_CreateGameRequest J body) w
    else if decide (Path request = "/joinGame") then
      handleJoinGame (Unmarshal_JoinGameRequest J body) w
    else if decide (Path request = "/deleteGame") then
      handleDeleteGame (Unmarshal_GameRequest J body) w
    else if decide (Path request = "/removePlayer") then
      handleRemovePlayer (Unmarshal_RemovePlayerRequest J body) w
    else if decide (Path request = "/startGame") then
      handleStartGame (Unmarshal_GameRequest J body) w
    else if decide (Path request = "/endGame") then
      handleEndGame (Unmarshal_GameRequest J body) w
    else if decide (Path request = "/playerList") then
      handlePlayerList J (Unmarshal_GameRequest J body) w
    else if decide (Path request = "/leaveGame") then
      handleLeaveGame (Unmarshal_GameRequest J body) w
    else if decide (Path request = "/gameState") then
      handleGameState (Unmarshal_GameRequest J body) w
    else if decide (Path request = "/isOwner") then
      handleIsOwner (Unmarshal_GameRequest J body) w
    else
      ({| StatusCode := 404; Body := "Route not found"; Headers := [] |}, w).
Proof.
  unfold HandleRequest. cbv zeta.
  repeat (case_decide as Hp;
          [apply String.eqb_eq in Hp; rewrite Hp; reflexivity
          |apply String.eqb_neq in Hp; rewrite Hp; clear Hp]).
  reflexivity.
Qed.

End Router.

(** X17. On a path that is none of the ten routes [HandleRequest] answers
    404 [Route not found] without decoding the body or calling the store:
    the world is left as it was. *)
Theorem HandleRequest_unknown_route (J : encoding_json)
    (request : APIGatewayProxyRequest) (w : World) :
  Path request ∉ routes →
  HandleRequest J request w
  = ({| StatusCode := 404; Body := "Route not found"; Headers := [] |}, w).
Proof.
  intros Hpath. rewrite HandleRequest_route. cbv zeta.
  repeat (case_decide;
          [exfalso; apply Hpath;
           match goal with H : Path request = _ |- _ => rewrite H end;
           unfold routes; in_list|]).
  reflexivity.
Qed.

Lemma HandleRequest_unknown_route_witness :
  StatusCode (HandleRequest rejecting_json {| Path := "/creategame"; RequestBody := "{}" |}
                (two_games [])).1 = 404%Z.
Proof.
  rewrite (HandleRequest_unknown_route rejecting_json {| Path := "/creategame"; RequestBody := "{}" |}
             (two_games [])); [reflexivity|].
  unfold routes. intros Hin. repeat (apply elem_of_cons in Hin as [Hin|Hin]; [discriminate|]).
  by apply elem_of_nil in Hin.
Defined.

(** X18. When the body of a request does not decode into the request type
    of its route, [HandleRequest] answers 400 without calling the store: the
    world is left as it was. *)
Theorem HandleRequest_undecodable_body (J : encoding_json)
    (request : APIGatewayProxyRequest) (w : World) :
  let body := RequestBody request in
  let run := HandleRequest J request w in
  (Path request = "/createGame" ∧ Unmarshal_CreateGameRequest J body = None)
  ∨ (Path request = "/joinGame" ∧ Unmarshal_JoinGameRequest J body = None)
  ∨ (Path request = "/removePlayer" ∧ Unmarshal_RemovePlayerRequest J body = None)
  ∨ (Path request ∈ ["/deleteGame"; "/startGame"; "/endGame"; "/playerList";
                     "/leaveGame"; "/gameState"; "/isOwner"]
     ∧ Unmarshal_GameRequest J body = None) →
  StatusCode run.1 = 400%Z ∧ run.2 = w.
Proof.
  intros body run Hcase. subst run body. rewrite HandleRequest_route. cbv zeta.
  destruct Hcase as [[Hp Hd]|[[Hp Hd]|[[Hp Hd]|[Hp Hd]]]].
  1-3: rewrite Hp, Hd; done.
  rewrite Hd.
  repeat (apply elem_of_cons in Hp as [Hp|Hp]; [rewrite Hp; done|]).
  by apply elem_of_nil in Hp.
Qed.

Lemma HandleRequest_undecodable_body_witness :
  let run := HandleRequest rejecting_json
               {| Path := "/deleteGame"; RequestBody := "not json" |}
               (two_games [Some RequestError]) in
  StatusCode run.1 = 400%Z ∧ faults run.2 = [Some RequestError].
Proof.
  intros run.
  destruct (HandleRequest_undecodable_body rejecting_json
              {| Path := "/deleteGame"; RequestBody := "not json" |}
              (two_games [Some RequestError])) as [H1 H2].
  - right. right. right. split; [in_list|reflexivity].
  - split; [exact H1|]. fold run in H2. by rewrite H2.
Defined.

(** X19. [HandleRequest] answers 200, 400, 404, 409 or 500, and on the routes
    other than [/createGame] and [/joinGame] only 200 or 400: there an
    unauthorized requester, a missing game and a failure of the store are all
    answered 400.  It answers 404 only on [/joinGame] or an unknown path, and
    409 or 500 only on [/createGame] or [/joinGame]. *)
Theorem HandleRequest_status_codes (J : encoding_json)
    (request : APIGatewayProxyRequest) (w : World) :
  let status := StatusCode (HandleRequest J request w).1 in
  status ∈ [200%Z; 400%Z; 404%Z; 409%Z; 500%Z]
  ∧ (Path request ∈ ["/deleteGame"; "/removePlayer"; "/startGame"; "/endGame";
                     "/playerList"; "/leaveGame"; "/gameState"; "/isOwner"] →
     status ∈ [200%Z; 400%Z])
  ∧ (status = 404%Z → Path request = "/joinGame" ∨ Path request ∉ routes)
  ∧ (status ∈ [409%Z; 500%Z] → Path request ∈ ["/createGame"; "/joinGame"]).
Proof.
  intros status. subst status. rewrite HandleRequest_route. cbv zeta.
  pose proof (simple_handlers_status J (Unmarshal_GameRequest J (RequestBody request))
                (Unmarshal_RemovePlayerRequest J (RequestBody request)) w)
    as (Hd & Hr & Hs & He & Hl & Hv & Hg & Ho).
  pose proof (handleCreateGame_status
                (Unmarshal_CreateGameRequest J (RequestBody request)) w) as Hc.
  pose proof (handleJoinGame_status
                (Unmarshal_JoinGameRequest J (RequestBody request)) w) as Hj.
  assert (∀ z : Z, z ∈ [200%Z; 400%Z] →
            z ∈ [200%Z; 400%Z; 404%Z; 409%Z; 500%Z]
            ∧ z ≠ 404%Z ∧ z ∉ [409%Z; 500%Z]) as Hsimple.
  { intros z Hz. apply elem_of_cons in Hz as [->|Hz];
      [|apply elem_of_cons in Hz as [->|Hz]; [|by apply elem_of_nil in Hz]].
    all: split; [in_list|]; split; [discriminate|].
    all: intros Hin; repeat (apply elem_of_cons in Hin as [Hin|Hin]; [discriminate|]).
    all: by apply elem_of_nil in Hin. }
  case_decide as Hp1.
  { split_and!.
    - revert Hc. generalize (StatusCode (handleCreateGame
        (Unmarshal_CreateGameRequest J (RequestBody request)) w).1).
      intros z Hz. repeat (apply elem_of_cons in Hz as [->|Hz]; [in_list|]).
      by apply elem_of_nil in Hz.
    - rewrite Hp1. intros Hin.
      repeat (apply elem_of_cons in Hin as [Hin|Hin]; [discriminate|]).
      by apply elem_of_nil in Hin.
    - revert Hc. generalize (StatusCode (handleCreateGame
        (Unmarshal_CreateGameRequest J (RequestBody request)) w).1).
      intros z Hz ->. repeat (apply elem_of_cons in Hz as [Hz|Hz]; [discriminate|]).
      by apply elem_of_nil in Hz.
    - intros _. rewrite Hp1. in_list. }
  case_decide as Hp2.
  { split_and!; [done| |by left|intros _; rewrite Hp2; in_list].
    rewrite Hp2. intros Hin.
    repeat (apply elem_of_cons in Hin as [Hin|Hin]; [discriminate|]).
    by apply elem_of_nil in Hin. }
  repeat (case_decide;
          [match goal with
           | H : StatusCode ?x ∈ [200%Z; 400%Z] |- context [StatusCode ?x] =>
               destruct (Hsimple _ H) as (Ha & Hb & Hc')
           end; by split_and!|]).
  cbn [fst StatusCode]. split_and!; [in_list| |intros _; right|].
  - intros Hin. repeat (apply elem_of_cons in Hin as [Hin|Hin]; [done|]).
    by apply elem_of_nil in Hin.
  - unfold routes. intros Hin.
    repeat (apply elem_of_cons in Hin as [Hin|Hin]; [done|]).
    by apply elem_of_nil in Hin.
  - intros Hin. repeat (apply elem_of_cons in Hin as [Hin|Hin]; [discriminate|]).
    by apply elem_of_nil in Hin.
Qed.

(** [P2], who does not own [S1], asks to delete it: 400. *)
Lemma HandleRequest_status_codes_witness :
  let J := {| Unmarshal_CreateGameRequest := λ _, None;
              Unmarshal_JoinGameRequest := λ _, None;
              Unmarshal_GameRequest :=
                λ _, Some {| reqGameId := "S1"; reqPlayerId := "P2" |};
              Unmarshal_RemovePlayerRequest := λ _, None;
              Marshal_string := λ s, dq ++ s ++ dq |} in
  StatusCode (HandleRequest J {| Path := "/deleteGame"; RequestBody := "{}" |}
                (two_games [])).1 ∈ [200%Z; 400%Z]
  ∧ (HandleRequest J {| Path := "/deleteGame"; RequestBody := "{}" |} (two_games [])).1
    = {| StatusCode := 400;
         Body := "Delete failed: unauthorized: only the game owner can delete this game";
         Headers := [] |}.
Proof.
  intros J.
  destruct (HandleRequest_status_codes J {| Path := "/deleteGame"; RequestBody := "{}" |}
              (two_games [])) as (_ & H & _).
  split; [apply H; in_list|reflexivity].
Defined.

(** X20. [handlePlayerList] answers the owner of a stored game, the store
    carrying out the read and the query, 200 with the JSON of the list
    [PlayerList] returned; when no stored item with the [gameId] of the
    request decodes to a player, for one when the game has no player left,
    that list is the nil slice and the body is [null]. *)
Theorem handlePlayerList_body (J : encoding_json) (w : World) (r : GameRequest)
    (item : Item) (game : Game) :
  games w !! reqGameId r = Some item →
  UnmarshalGame item = inr game →
  OwnerId game = reqPlayerId r →
  calm 2 (faults w) = true →
  ∃ playerList,
    (PlayerList r w).1 = Ok playerList
    ∧ (handlePlayerList J (Some r) w).1
      = {| StatusCode := 200; Body := Marshal_players J playerList;
           Headers := jsonHeaders |}
    ∧ ((∀ k it p, players w !! k = Some it →
                  it !! "gameId" = Some (AvS (reqGameId r)) →
                  UnmarshalPlayer it ≠ inr p) →
       Body (handlePlayerList J (Some r) w).1 = "null").
Proof.
  intros Hg Hu Ho Hc.
  destruct (PlayerList_owner_eq w r item game Hg Hu Ho Hc) as (H & _).
  exists (decoded_players (members_of (reqGameId r) w)).
  unfold handlePlayerList, bind.
  destruct (PlayerList r w) as [res w1]. cbn [fst] in H. subst res.
  cbn [fst ret]. split_and!; try done.
  intros Hnone. cbn [Body].
  destruct (decoded_players (members_of (reqGameId r) w)) as [|p l] eqn:E; [done|].
  assert (p ∈ decoded_players (members_of (reqGameId r) w)) as Hin
    by (rewrite E; apply list_elem_of_here).
  apply elem_of_decoded_members in Hin as (k & it & Hk & Hgid & Hd).
  by destruct (Hnone k it p).
Qed.

(** [P3], the owner and only player of [S2], leaves and then lists the
    players. *)
Lemma handlePlayerList_body_witness :
  let r := {| reqGameId := "S2"; reqPlayerId := "P3" |} in
  Body (handlePlayerList rejecting_json (Some r) (LeaveGame r (two_games [])).2).1 = "null".
Proof.
  intros r.
  destruct (handlePlayerList_body rejecting_json (LeaveGame r (two_games [])).2 r
              (MarshalGame risk) risk eq_refl eq_refl eq_refl eq_refl)
    as (l & _ & _ & H).
  apply H. intros k it p Hk Hgid.
  assert (players (LeaveGame r (two_games [])).2
          = <["P1" := MarshalPlayer ann]> (<["P2" := MarshalPlayer bob]> ∅)) as Hp
    by reflexivity.
  rewrite Hp in Hk.
  repeat (apply lookup_insert_Some in Hk as [[<- <-]|[? Hk]]; [discriminate|]).
  by rewrite lookup_empty in Hk.
Defined.

(** The tables of the example are well-formed, and stay so through a
    creation, a start and a deletion. *)
Lemma coordinator_preserves_wf_witness :
  let w := two_games [] in
  let create := {| cGameName := "Chess"; cPlayerName := "Dan";
                   cGameRequest := {| reqGameId := "S3"; reqPlayerId := "P4" |} |} in
  wf_world w
  ∧ wf_world (CreateGameAndPlayer create w).2
  ∧ wf_world (StartGame {| reqGameId := "S1"; reqPlayerId := "P1" |} w).2
  ∧ wf_world (DeleteGame {| reqGameId := "S1"; reqPlayerId := "P1" |} w).2.
Proof.
  intros w create.
  assert (wf_world w) as Hw
    by (split; apply (bool_decide_unpack _); vm_compute; exact I).
  destruct coordinator_preserves_wf as (Hc & _ & _ & Hd & _ & Hs & _).
  split; [exact Hw|]. split; [exact (Hc create w Hw)|].
  split; [exact (Hs _ w Hw) | exact (Hd _ w Hw)].
Defined.
